(** * Login throttle and user query engine of the m-banking back end

    A shallow embedding of two pieces of the service:

    - [AuthenticationController.login]
      (src/api/components/authentication/authentication-controller.js),
      the handler that keeps the process-wide [loginAttempts] object;
    - [UsersService.getUsers] (users-service.js) and the handler
      [UsersController.getUsers] (users-controller.js) that calls it:
      search, sort, pagination and projection over the user list;
    - the other functions of users-service.js and the other handlers of
      users-controller.js ([UsersServiceRest], [UsersControllerRest]), over
      the functions that users-repository.js exports, taken as an
      interface ([UsersRepository]).

    Conventions of the embedding.

    - A JavaScript string is a [string]: a sequence of code units, here the
      code units 0..255.  Comparison with [<] is by code unit
      ([String.ltb]); [trim] and [toLowerCase] follow ECMAScript on that
      range.
    - JavaScript integers are [Z].  Clock readings ([Date.now()]) are
      milliseconds in [Z].
    - [loginAttempts] is a [gmap string attempt]; a missing key is
      [undefined].  Keys are e-mail addresses, none of which names a
      property of [Object.prototype].
    - A thrown exception is the [Throw] case of [exc]; every [try]/[catch]
      of the source is written out. *)

From stdpp Require Import gmap strings list sorting pretty.
From Stdlib Require Import ZArith Lia Ascii DecimalString.

Local Open Scope string_scope.
Local Open Scope list_scope.
Local Open Scope Z_scope.

(** ** Part I: definitions *)

(** *** JavaScript string primitives *)

Module JS.

(** [s.split(sep)] for a one-character separator: never empty,
    [''.split(':')] is [['']]. *)
Fixpoint split (sep : ascii) (s : string) : list string :=
  match s with
  | EmptyString => [EmptyString]
  | String c s' =>
      if Ascii.eqb c sep then EmptyString :: split sep s'
      else match split sep s' with
           | [] => [String c EmptyString]
           | p :: ps => String c p :: ps
           end
  end.

(** White space and line terminators of ECMAScript among the code units
    0..255: TAB, LF, VT, FF, CR, SP and NBSP. *)
Definition is_white (c : ascii) : bool :=
  let n := N_of_ascii c in
  (n =? 9)%N || (n =? 10)%N || (n =? 11)%N || (n =? 12)%N
  || (n =? 13)%N || (n =? 32)%N || (n =? 160)%N.

Fixpoint trimStart (s : string) : string :=
  match s with
  | EmptyString => EmptyString
  | String c s' => if is_white c then trimStart s' else s
  end.

Fixpoint trimEnd (s : string) : string :=
  match s with
  | EmptyString => EmptyString
  | String c s' =>
      match trimEnd s' with
      | EmptyString => if is_white c then EmptyString else String c EmptyString
      | r => String c r
      end
  end.

(** [s.trim()] *)
Definition trim (s : string) : string := trimEnd (trimStart s).

(** Lower-case mapping of one code unit: A-Z, and the Latin-1 capitals
    U+00C0..U+00DE without the multiplication sign U+00D7. *)
Definition lower (c : ascii) : ascii :=
  let n := N_of_ascii c in
  if ((65 <=? n)%N && (n <=? 90)%N)
     || ((192 <=? n)%N && (n <=? 222)%N && negb (n =? 215)%N)
  then ascii_of_N (n + 32) else c.

(** [s.toLowerCase()] *)
Fixpoint toLowerCase (s : string) : string :=
  match s with
  | EmptyString => EmptyString
  | String c s' => String (lower c) (toLowerCase s')
  end.

(** [s.includes(v)]: [v] occurs in [s] at some position. *)
Fixpoint includes (s v : string) : bool :=
  String.prefix v s
  || match s with
     | EmptyString => false
     | String _ s' => includes s' v
     end.

(** JavaScript numbers that an integer division can produce. *)
Inductive number : Type :=
| Int (z : Z)
| NaN
| Infinity
| NegInfinity.

(** [Math.ceil(a / b)] for integers [a] and [b]. *)
Definition ceil_div (a b : Z) : number :=
  if b =? 0 then
    if a =? 0 then NaN else if 0 <? a then Infinity else NegInfinity
  else Int (- ((- a) / b)).

(** [p < n] for an integer [p]. *)
Definition lt_number (p : Z) (n : number) : bool :=
  match n with
  | Int z => p <? z
  | NaN => false
  | Infinity => true
  | NegInfinity => false
  end.

(** [arr.sort(cmp)].  ECMAScript (2019 and later) requires a stable sort.
    For a comparator that is a total preorder there is exactly one
    sorted, stable rearrangement of the array (lemma
    [stable_sorted_unique]), so this insertion sort returns the array the
    engine produces, whatever algorithm the engine runs. *)
Fixpoint insert {A : Type} (cmp : A -> A -> Z) (x : A) (l : list A) : list A :=
  match l with
  | [] => [x]
  | y :: l' => if cmp x y <=? 0 then x :: l else y :: insert cmp x l'
  end.

Fixpoint sort {A : Type} (cmp : A -> A -> Z) (l : list A) : list A :=
  match l with
  | [] => []
  | x :: l' => insert cmp x (sort cmp l')
  end.

End JS.

(** *** Exceptions *)

(** [TypeError] is the exception of a property read on [undefined] or of
    a call of something that is no function.  [OutOfFuel] is not an
    exception of the program: it marks a loop of the embedding that used up
    its step bound (lemma [pageLoop_fuel] shows that it never does). *)
Inductive error : Type :=
| TypeError
| OutOfFuel.

Inductive exc (A : Type) : Type :=
| Ret (a : A)
| Throw (e : error).
Arguments Ret {A} a.
Arguments Throw {A} e.

Definition bind {A B : Type} (m : exc A) (k : A -> exc B) : exc B :=
  match m with
  | Ret a => k a
  | Throw e => Throw e
  end.

Notation "'try!' x := m 'in' k" := (bind m (fun x => k))
  (at level 10, x name, m at level 100, k at level 200,
   format "'[v' 'try!'  x  :=  m  'in' '/' k ']'").

(** *** The login handler *)

Module AuthenticationController.

(** One entry of [loginAttempts]. *)
Record attempt : Type := { count : Z; timestamp : Z }.

(** What [authenticationServices.checkLoginCredentials] resolves to: a
    login payload, [null], or a rejection of the promise. *)
Inductive credentials : Type :=
| Granted (payload : string)
| Denied
| Rejected.

(** How the handler ends: a 200 response, or an error given to [next].
    [TooManyAttempts] is the FORBIDDEN error of the lockout; its message
    shows [remainingTime / 60], the minutes, with two decimals. *)
Inductive outcome : Type :=
| Ok200 (payload : string)
| TooManyAttempts (remainingTime : Z)
| WrongCredentials
| OtherError.

(** [calculateRemainingTime(email)] at clock reading [now]; reading
    [.timestamp] of a missing entry throws. *)
Definition calculateRemainingTime
    (loginAttempts : gmap string attempt) (email : string) (now : Z)
  : exc Z :=
  match loginAttempts !! email with
  | None => Throw TypeError
  | Some r =>
      let lastAttemptTime := timestamp r in
      let elapsedTime := (now - lastAttemptTime) / 1000 in
      Ret (Z.max 0 (1800 - elapsedTime))
  end.

(** [login]: [now] is the clock on entry, [later] the clock after the
    credential check; the result is the outcome and the new
    [loginAttempts]. *)
Definition login
    (checkLoginCredentials : string -> string -> credentials)
    (email password : string) (now later : Z)
    (loginAttempts : gmap string attempt)
  : outcome * gmap string attempt :=
  let loginAttempts :=
    match loginAttempts !! email with
    | None => <[email := {| count := 1; timestamp := now |}]> loginAttempts
    | Some _ => loginAttempts
    end in
  match loginAttempts !! email with
  | None => (OtherError, loginAttempts)
  | Some r =>
      let attempts := count r in
      if 5 <? attempts then
        match calculateRemainingTime loginAttempts email now with
        | Ret remainingTime => (TooManyAttempts remainingTime, loginAttempts)
        | Throw _ => (OtherError, loginAttempts)
        end
      else
        match checkLoginCredentials email password with
        | Rejected => (OtherError, loginAttempts)
        | Denied =>
            match loginAttempts !! email with
            | None => (OtherError, loginAttempts)
            | Some _ =>
                (WrongCredentials,
                 <[email := {| count := attempts + 1; timestamp := later |}]>
                   loginAttempts)
            end
        | Granted payload => (Ok200 payload, delete email loginAttempts)
        end
  end.

End AuthenticationController.

(** *** The user query engine *)

Module UsersService.

(** A user document: the string fields of the schema and the [id]
    virtual. *)
Record User : Type := {
  id : string;
  name : string;
  email : string;
  phone : string;
  account_number : string;
  balance : string;
  password : string
}.

(** [user[field]] when it is a string; every other property of the
    document is [undefined] or an object without [includes]. *)
Definition prop (user : User) (field : string) : option string :=
  if (field =? "id")%string then Some (id user)
  else if (field =? "name")%string then Some (name user)
  else if (field =? "email")%string then Some (email user)
  else if (field =? "phone")%string then Some (phone user)
  else if (field =? "account_number")%string then Some (account_number user)
  else if (field =? "balance")%string then Some (balance user)
  else if (field =? "password")%string then Some (password user)
  else None.

(** An element of [data]: the object literal built in the loop, as its
    list of keys and values. *)
Definition summary : Type := list (string * string).

Definition project (user : User) : summary :=
  [ ("id", id user);
    ("name", name user);
    ("balance", balance user);
    ("email", email user);
    ("phone", phone user);
    ("account_number", account_number user) ].

Record QueryResult : Type := {
  page_number : Z;
  page_size : Z;
  count : Z;
  total_pages : JS.number;
  has_previous_page : bool;
  has_next_page : bool;
  data : list summary
}.

(** [search.split(':').map((part) => part.trim())] *)
Definition searchParts (search : string) : list string :=
  map JS.trim (JS.split ":" search).

(** [sort.split(':').map((part) => part.trim().toLowerCase())] *)
Definition sortParts (sort : string) : list string :=
  map (fun part => JS.toLowerCase (JS.trim part)) (JS.split ":" sort).

(** [filteredUsers.filter((user) => user[field].includes(value))] *)
Fixpoint filterBySearch (field value : string) (users : list User)
  : exc (list User) :=
  match users with
  | [] => Ret []
  | user :: rest =>
      match prop user field with
      | None => Throw TypeError
      | Some stored =>
          try! kept := filterBySearch field value rest in
          Ret (if JS.includes stored value then user :: kept else kept)
      end
  end.

(** The [if (search)] block, for a query parameter that is a string or
    absent: [Ret None] is the early [return null]. *)
Definition searchStage (search : option string) (filteredUsers : list User)
  : exc (option (list User)) :=
  match search with
  | None | Some EmptyString => Ret (Some filteredUsers)
  | Some search =>
      match searchParts search with
      | [field; value] =>
          try! filteredBySearch := filterBySearch field value filteredUsers in
          if Z.of_nat (length filteredBySearch) =? 0 then Ret None
          else Ret (Some filteredBySearch)
      | _ => Ret (Some filteredUsers)
      end
  end.

(** [sortBy] after the two [if]s on [field]. *)
Definition sortByOf (field : string) : string :=
  if (field =? "name")%string || (field =? "email")%string then field
  else "email".

(** [sortOrder] after the [if] on [order]. *)
Definition sortOrderOf (order : string) : Z :=
  if (order =? "desc")%string then -1 else 1.

(** [a[sortBy]] for [sortBy] among [name] and [email], where it is always
    a string (lemma [prop_sortByOf]). *)
Definition sortValue (user : User) (sortBy : string) : string :=
  match prop user sortBy with
  | Some stored => stored
  | None => EmptyString
  end.

(** The comparator given to [filteredUsers.sort]. *)
Definition compareUsers (sortBy : string) (sortOrder : Z) (a b : User) : Z :=
  let valueA := JS.toLowerCase (sortValue a sortBy) in
  let valueB := JS.toLowerCase (sortValue b sortBy) in
  if (valueA <? valueB)%string then -1 * sortOrder
  else if (valueB <? valueA)%string then 1 * sortOrder
  else 0.

(** The [if (sort)] block. *)
Definition sortStage (sort : option string) (filteredUsers : list User)
  : list User :=
  match sort with
  | None | Some EmptyString => filteredUsers
  | Some sort =>
      match sortParts sort with
      | [field; order] =>
          JS.sort (compareUsers (sortByOf field) (sortOrderOf order))
            filteredUsers
      | _ => filteredUsers
      end
  end.

(** [filteredUsers[i]] *)
Definition at_index (filteredUsers : list User) (i : Z) : option User :=
  if i <? 0 then None else filteredUsers !! Z.to_nat i.

(** The [for] loop that fills [data], from index [i]. *)
Fixpoint pageLoop (fuel : nat) (filteredUsers : list User)
    (i endIndex : Z) (data : list summary) : exc (list summary) :=
  if (i <? endIndex) && (i <? Z.of_nat (length filteredUsers)) then
    match fuel with
    | O => Throw OutOfFuel
    | S fuel' =>
        match at_index filteredUsers i with
        | None => Throw TypeError
        | Some user =>
            pageLoop fuel' filteredUsers (i + 1) endIndex
              (data ++ [project user])
        end
    end
  else Ret data.

(** [limit] after [if (!limit || isNaN(limit))]. *)
Definition effectiveLimit (limit : option Z) (filteredCount : Z) : Z :=
  match limit with
  | None => filteredCount
  | Some l => if l =? 0 then filteredCount else l
  end.

(** From the [limit] default to the returned object. *)
Definition pageStage (page : Z) (limit : option Z)
    (filteredCount : Z) (filteredUsers : list User) : exc QueryResult :=
  let limit := effectiveLimit limit filteredCount in
  let startIndex := (page - 1) * limit in
  let endIndex := page * limit in
  try! data :=
    pageLoop (S (length filteredUsers)) filteredUsers startIndex endIndex [] in
  let total_pages := JS.ceil_div filteredCount limit in
  let has_previous_page := 1 <? page in
  let has_next_page := JS.lt_number page total_pages in
  Ret {| page_number := page;
         page_size := limit;
         count := filteredCount;
         total_pages := total_pages;
         has_previous_page := has_previous_page;
         has_next_page := has_next_page;
         data := data |}.

(** The body of the [try] of [getUsers], over the array [users] that
    [usersRepository.getUsers()] resolved to. *)
Definition getUsers_body (page : Z) (limit : option Z)
    (search sort : option string) (users : list User)
  : exc (option QueryResult) :=
  try! searched := searchStage search users in
  match searched with
  | None => Ret None
  | Some filteredUsers =>
      let filteredCount := Z.of_nat (length filteredUsers) in
      let filteredUsers := sortStage sort filteredUsers in
      try! result := pageStage page limit filteredCount filteredUsers in
      Ret (Some result)
  end.

(** [getUsers]: the [catch] turns every exception into [null]. *)
Definition getUsers (page : Z) (limit : option Z)
    (search sort : option string) (users : list User)
  : option QueryResult :=
  match getUsers_body page limit search sort users with
  | Ret result => result
  | Throw _ => None
  end.

End UsersService.

Module UsersController.

(** What the handler does with the request: a 200 response with the
    result, or the NOT_FOUND error given to [next]. *)
Inductive response : Type :=
| Json200 (users : UsersService.QueryResult)
| NotFound.

(** [getUsers]: [page_number] and [page_size] are what [parseInt] made
    of the query parameters, [None] for [NaN]. *)
Definition getUsers (page_number page_size : option Z)
    (search sort : option string) (store : list UsersService.User)
  : response :=
  let page :=
    match page_number with
    | Some p => if p =? 0 then 1 else p
    | None => 1
    end in
  let limit :=
    match page_size with
    | Some l => if l =? 0 then None else Some l
    | None => None
    end in
  match UsersService.getUsers page limit search sort store with
  | None => NotFound
  | Some users => Json200 users
  end.

End UsersController.

(** *** The rest of the users component *)

(** What the other handlers of the users component can throw: a
    [TypeError] (a property read on [null]), the rejection of a promise of
    the repository or of the password utilities, or an error made by
    [errorResponder]. *)
Inductive errorType : Type :=
| INVALID_PASSWORD
| EMAIL_ALREADY_TAKEN
| UNPROCESSABLE_ENTITY
| INVALID_AMOUNT
| INVALID_CREDENTIALS
| NOT_FOUND.

Inductive thrown : Type :=
| JsTypeError
| PromiseRejected
| ErrorResponder (type : errorType) (message : string).

(** A promise that has settled. *)
Inductive settled (A : Type) : Type :=
| Resolved (a : A)
| Thrown (x : thrown).
Arguments Resolved {A} a.
Arguments Thrown {A} x.

(** The functions that users-repository.js exports, over the state
    [Store] of the collection.  The queries read the store; each command
    is one document operation, which either rejects and leaves the store
    or resolves with the new store.  [getUsers] is the array that
    [UsersService.getUsers] takes.  [changePassword] also tells whether
    the value it resolves to is truthy. *)
Record UsersRepository (Store : Type) : Type := {
  repo_getUser : string -> Store -> settled (option UsersService.User);
  repo_createUser :
    string -> string -> string -> string -> string -> string ->
    Store -> settled Store;
  repo_updateUser : string -> string -> string -> Store -> settled Store;
  repo_updateBalance : string -> string -> string -> Store -> settled Store;
  repo_deleteUser : string -> Store -> settled Store;
  repo_getUserByEmail : string -> Store -> settled (option UsersService.User);
  repo_changePassword : string -> string -> Store -> settled (bool * Store);
  repo_getUAN : string -> Store -> settled (option UsersService.User)
}.
Arguments repo_getUser {Store} _ _ _.
Arguments repo_createUser {Store} _ _ _ _ _ _ _ _.
Arguments repo_updateUser {Store} _ _ _ _ _.
Arguments repo_updateBalance {Store} _ _ _ _ _.
Arguments repo_deleteUser {Store} _ _ _.
Arguments repo_getUserByEmail {Store} _ _ _.
Arguments repo_changePassword {Store} _ _ _ _.
Arguments repo_getUAN {Store} _ _ _.

(** [hashPassword] and [passwordMatched] of utils/password, for the one
    call a request makes. *)
Record PasswordUtils : Type := {
  hashPassword : string -> settled string;
  passwordMatched : string -> string -> settled bool
}.

(** The operations on JavaScript numbers that the top-up uses, over a type
    [Float] that stands for the doubles: [parseFloat(s)], [isNaN(x)],
    [x <= 0], [x + y] and [x.toString()]. *)
Record Numbers (Float : Type) : Type := {
  parseFloat : string -> Float;
  isNaN : Float -> bool;
  leZero : Float -> bool;
  add : Float -> Float -> Float;
  toString : Float -> string
}.
Arguments parseFloat {Float} _ _.
Arguments isNaN {Float} _ _.
Arguments leZero {Float} _ _.
Arguments add {Float} _ _ _.
Arguments toString {Float} _ _.

(** An asynchronous function over the store: the value it resolves to or
    what it throws, and the store afterwards. *)
Definition async (Store A : Type) : Type := Store -> settled A * Store.

Definition resolve {Store A : Type} (a : A) : async Store A :=
  fun store => (Resolved a, store).

Definition throw {Store A : Type} (x : thrown) : async Store A :=
  fun store => (Thrown x, store).

Definition await {Store A B : Type} (m : async Store A) (k : A -> async Store B)
  : async Store B :=
  fun store =>
    match m store with
    | (Resolved a, store') => k a store'
    | (Thrown x, store') => (Thrown x, store')
    end.

(** [try { m } catch (e) { h }] *)
Definition tryCatch {Store A : Type} (m : async Store A)
    (h : thrown -> async Store A) : async Store A :=
  fun store =>
    match m store with
    | (Resolved a, store') => (Resolved a, store')
    | (Thrown x, store') => h x store'
    end.

(** A query of the repository. *)
Definition query {Store A : Type} (read : Store -> settled A) : async Store A :=
  fun store => (read store, store).

(** A command of the repository. *)
Definition command {Store : Type} (write : Store -> settled Store)
  : async Store unit :=
  fun store =>
    match write store with
    | Resolved store' => (Resolved tt, store')
    | Thrown x => (Thrown x, store)
    end.

Notation "'let!' x := m 'in' k" := (await m (fun x => k))
  (at level 10, x name, m at level 100, k at level 200,
   format "'[v' 'let!'  x  :=  m  'in' '/' k ']'").

Module UsersServiceRest.

Section Service.

Context {Store Float : Type}.
Context (repository : UsersRepository Store) (utils : PasswordUtils)
        (numbers : Numbers Float).

(** An object of the responses: its keys and values. *)
Definition object : Type := list (string * string).

(** [getUser]: [None] is [null]. *)
Definition getUser (id : string) : async Store (option object) :=
  let! user := query (repo_getUser repository id) in
  match user with
  | None => resolve None
  | Some user =>
      resolve
        (Some [ ("id", UsersService.id user);
                ("name", UsersService.name user);
                ("email", UsersService.email user);
                ("phone", UsersService.phone user);
                ("account_number", UsersService.account_number user) ])
  end.

(** [createUser]: [false] is [null]. *)
Definition createUser (name email phone account_number balance password : string)
  : async Store bool :=
  let! hashedPassword := query (fun _ => hashPassword utils password) in
  tryCatch
    (let! _ :=
       command (repo_createUser repository name email phone account_number
                  balance hashedPassword) in
     resolve true)
    (fun _ => resolve false).

(** [updateUser]: [false] is [null]. *)
Definition updateUser (id name email : string) : async Store bool :=
  let! user := query (repo_getUser repository id) in
  match user with
  | None => resolve false
  | Some _ =>
      tryCatch
        (let! _ := command (repo_updateUser repository id name email) in
         resolve true)
        (fun _ => resolve false)
  end.

(** [updateBalance]: [false] is [null]. *)
Definition updateBalance (id : string) (amount : Float) (account_number : string)
  : async Store bool :=
  let! user := query (repo_getUser repository id) in
  match user with
  | None => resolve false
  | Some user =>
      tryCatch
        (let userAccount := UsersService.account_number user in
         if negb (userAccount =? account_number)%string then resolve false
         else
           let amountStr := toString numbers amount in
           let newBalance :=
             toString numbers
               (add numbers (parseFloat numbers (UsersService.balance user))
                  (parseFloat numbers amountStr)) in
           let! _ :=
             command (repo_updateBalance repository id userAccount newBalance) in
           resolve true)
        (fun _ => resolve false)
  end.

(** [deleteUser]: [false] is [null]. *)
Definition deleteUser (id : string) : async Store bool :=
  let! user := query (repo_getUser repository id) in
  tryCatch
    (match user with
     | None => resolve false
     | Some _ =>
         let! _ := command (repo_deleteUser repository id) in
         resolve true
     end)
    (fun _ => resolve false).

Definition emailIsRegistered (email : string) : async Store bool :=
  let! user := query (repo_getUserByEmail repository email) in
  match user with
  | Some _ => resolve true
  | None => resolve false
  end.

(** The loop of [generateAccountNumber]: one iteration for each draw of
    [Math.floor(Math.random() * 10000000)]; [None] when the draws are used
    up and the loop still runs. *)
Fixpoint generateAccountNumber_loop (draws : list N) (account_number : string)
    (store : Store) : option (settled string) :=
  match draws with
  | [] => None
  | draw :: draws =>
      let account_number := account_number +:+ pretty draw in
      match repo_getUAN repository account_number store with
      | Thrown x => Some (Thrown x)
      | Resolved None => Some (Resolved account_number)
      | Resolved (Some _) => generateAccountNumber_loop draws account_number store
      end
  end.

Definition generateAccountNumber (draws : list N) (store : Store)
  : option (settled string) :=
  generateAccountNumber_loop draws "535" store.

Definition getUAN (account_number : string) : async Store bool :=
  let! user := query (repo_getUAN repository account_number) in
  match user with
  | Some _ => resolve true
  | None => resolve false
  end.

Definition checkPassword (userId password : string) : async Store bool :=
  let! user := query (repo_getUser repository userId) in
  match user with
  | None => throw JsTypeError
  | Some user =>
      query (fun _ => passwordMatched utils password (UsersService.password user))
  end.

(** [changePassword]: [false] is [null]. *)
Definition changePassword (userId password : string) : async Store bool :=
  let! user := query (repo_getUser repository userId) in
  match user with
  | None => resolve false
  | Some _ =>
      let! hashedPassword := query (fun _ => hashPassword utils password) in
      fun store =>
        match repo_changePassword repository userId hashedPassword store with
        | Thrown x => (Thrown x, store)
        | Resolved (changeSuccess, store') =>
            (Resolved changeSuccess, store')
        end
  end.

End Service.

End UsersServiceRest.

Module UsersControllerRest.

(** The double quote character, as a string. *)
Definition doubleQuote : string := String (ascii_of_nat 34) EmptyString.

(** How a handler ends: [response.status(200).json(body)] or
    [next(error)]. *)
Inductive reply : Type :=
| Json (body : UsersServiceRest.object)
| Next (error : thrown).

Section Controller.

Context {Store Float : Type}.
Context (repository : UsersRepository Store) (utils : PasswordUtils)
        (numbers : Numbers Float).

(** The [try]/[catch] that every handler is wrapped in. *)
Definition handler (body : async Store UsersServiceRest.object) (store : Store)
  : reply * Store :=
  match body store with
  | (Resolved object, store') => (Json object, store')
  | (Thrown error, store') => (Next error, store')
  end.

Definition getUser (id : string) : Store -> reply * Store :=
  handler
    (let! user := UsersServiceRest.getUser repository id in
     match user with
     | None => throw (ErrorResponder UNPROCESSABLE_ENTITY "Unknown user")
     | Some user => resolve user
     end).

(** [createUser]: [balance] is [None] when the body has none; [draws] are
    the random numbers of [generateAccountNumber], and the result is [None]
    when they are used up before the loop ends. *)
Definition createUser (name email : string) (balance : option string)
    (phone_number password password_confirm : string) (draws : list N)
    (store : Store) : option (reply * Store) :=
  let balance :=
    match balance with
    | None | Some EmptyString => "0"
    | Some balance => balance
    end in
  if negb (password =? password_confirm)%string then
    Some (Next (ErrorResponder INVALID_PASSWORD "Password confirmation mismatched"),
          store)
  else
    match UsersServiceRest.emailIsRegistered repository email store with
    | (Thrown error, store) => Some (Next error, store)
    | (Resolved true, store) =>
        Some (Next (ErrorResponder EMAIL_ALREADY_TAKEN "Email is already registered"),
              store)
    | (Resolved false, store) =>
        match UsersServiceRest.generateAccountNumber repository draws store with
        | None => None
        | Some (Thrown error) => Some (Next error, store)
        | Some (Resolved account_number) =>
            Some
              (handler
                 (let! success :=
                    UsersServiceRest.createUser repository utils name email
                      phone_number account_number balance password in
                  if negb success then
                    throw (ErrorResponder UNPROCESSABLE_ENTITY "Failed to create user")
                  else
                    resolve [ ("account_number", account_number);
                              ("name", name);
                              ("email", email);
                              ("balance", balance) ])
                 store)
        end
    end.

Definition updateUser (id name email : string) : Store -> reply * Store :=
  handler
    (let! emailIsRegistered := UsersServiceRest.emailIsRegistered repository email in
     if emailIsRegistered : bool then
       throw (ErrorResponder EMAIL_ALREADY_TAKEN "Email is already registered")
     else
       let! success := UsersServiceRest.updateUser repository id name email in
       if negb success then
         throw (ErrorResponder UNPROCESSABLE_ENTITY "Failed to update user")
       else resolve [ ("id", id) ]).

(** [topUp]: [amount] is [None] when the body's amount is not a string. *)
Definition topUp (id account : string) (amount : option string)
  : Store -> reply * Store :=
  handler
    (match amount with
     | None =>
         throw (ErrorResponder INVALID_AMOUNT
                  "Invalid top-up amount(min. top-up 10000)")
     | Some amount =>
         let amount := parseFloat numbers amount in
         let! accountRegistered := UsersServiceRest.getUAN repository account in
         if negb accountRegistered then
           throw (ErrorResponder INVALID_CREDENTIALS "Account is not valid")
         else if isNaN numbers amount || leZero numbers amount then
           throw (ErrorResponder INVALID_CREDENTIALS "Invalid top-up amount")
         else
           let! success :=
             UsersServiceRest.updateBalance repository numbers id amount account in
           if negb success then
             throw (ErrorResponder UNPROCESSABLE_ENTITY
                      "Failed to top-up user balance")
           else
             resolve
               [ ("message",
                  "Top-up successful. You have topped up "
                  +:+ toString numbers amount +:+ " to your bank account") ]
     end).

Definition deleteUser (id email password deleteConfirm : string)
  : Store -> reply * Store :=
  handler
    (let! emailIsRegistered := UsersServiceRest.emailIsRegistered repository email in
     if negb emailIsRegistered then
       throw (ErrorResponder NOT_FOUND "Email is not valid")
     else
       let! passwordOk := UsersServiceRest.checkPassword repository utils id password in
       if negb passwordOk then
         throw (ErrorResponder INVALID_CREDENTIALS "Wrong password")
       else if negb (deleteConfirm =? "Yes")%string then
         throw (ErrorResponder UNPROCESSABLE_ENTITY
                  ("Please confirm the deletion by entering "
                   +:+ doubleQuote +:+ "Yes" +:+ doubleQuote))
       else
         let! success := UsersServiceRest.deleteUser repository id in
         if negb success then
           throw (ErrorResponder UNPROCESSABLE_ENTITY "Failed to delete user")
         else
           resolve
             [ ("message",
                "m-banking user with id " +:+ id +:+ " has been removed.") ]).

Definition changePassword (id password_old password_new password_confirm : string)
  : Store -> reply * Store :=
  handler
    (if negb (password_new =? password_confirm)%string then
       throw (ErrorResponder INVALID_PASSWORD "Password confirmation mismatched")
     else
       let! passwordOk :=
         UsersServiceRest.checkPassword repository utils id password_old in
       if negb passwordOk then
         throw (ErrorResponder INVALID_CREDENTIALS "Wrong password")
       else
         let! changeSuccess :=
           UsersServiceRest.changePassword repository utils id password_new in
         if negb changeSuccess then
           throw (ErrorResponder UNPROCESSABLE_ENTITY "Failed to change password")
         else resolve [ ("id", id) ]).

End Controller.

End UsersControllerRest.

(** *** Runs of login requests *)

(** One login request as the handler sees it: the body, the two clock
    readings, and what the credential check resolves to for it. *)
Record loginRequest : Type := {
  req_email : string;
  req_password : string;
  req_now : Z;
  req_later : Z;
  req_answer : AuthenticationController.credentials
}.

(** The handler on one request. *)
Definition handle (q : loginRequest)
    (loginAttempts : gmap string AuthenticationController.attempt)
  : AuthenticationController.outcome
    * gmap string AuthenticationController.attempt :=
  AuthenticationController.login (fun _ _ => req_answer q)
    (req_email q) (req_password q) (req_now q) (req_later q) loginAttempts.

(** Requests handled one after the other on the shared [loginAttempts]:
    the outcomes in order, and the final [loginAttempts]. *)
Fixpoint logins (requests : list loginRequest)
    (loginAttempts : gmap string AuthenticationController.attempt)
  : list AuthenticationController.outcome
    * gmap string AuthenticationController.attempt :=
  match requests with
  | [] => ([], loginAttempts)
  | q :: rest =>
      let (o, loginAttempts) := handle q loginAttempts in
      let (os, loginAttempts) := logins rest loginAttempts in
      (o :: os, loginAttempts)
  end.

(** *** Sample data *)

(** An identity with a count of 6 whose last failure was recorded at clock
    reading 0. *)
Definition lockedOut : gmap string AuthenticationController.attempt :=
  {[ "user@example.com" :=
       {| AuthenticationController.count := 6;
          AuthenticationController.timestamp := 0 |} ]}.

(** Seconds that [calculateRemainingTime] reports for entry [r] at [now]. *)
Definition remaining (r : AuthenticationController.attempt) (now : Z) : Z :=
  Z.max 0 (1800 - (now - AuthenticationController.timestamp r) / 1000).

(** Three and five users of a store, for the examples. *)
Definition sampleUser (name email : string) : UsersService.User :=
  {| UsersService.id := "id-" +:+ name;
     UsersService.name := name;
     UsersService.email := email;
     UsersService.phone := "0800";
     UsersService.account_number := "5351234567";
     UsersService.balance := "0";
     UsersService.password := "$2b$16$hash" |}.

Definition threeUsers : list UsersService.User :=
  [ sampleUser "John" "john@example.com";
    sampleUser "Bob" "bob@example.com";
    sampleUser "Joan" "joan@example.com" ].

Definition fiveUsers : list UsersService.User :=
  threeUsers
  ++ [ sampleUser "Alice" "alice@example.com";
       sampleUser "Carol" "carol@example.com" ].

(** The [k]-th candidate of [generateAccountNumber]: [535] followed by
    the first [k] draws in decimal, one after the other. *)
Definition candidate (draws : list N) (k : nat) : string :=
  foldl (fun account_number draw => account_number +:+ pretty draw) "535"
    (take k draws).

(** A repository in memory, for the examples: the store is the list of
    the users and no operation rejects. *)
Definition hasId (id : string) (user : UsersService.User) : bool :=
  (UsersService.id user =? id)%string.

Definition listRepository : UsersRepository (list UsersService.User) :=
  {| repo_getUser id store := Resolved (List.find (hasId id) store);
     repo_createUser name email phone account_number balance password store :=
       Resolved
         (store
          ++ [ {| UsersService.id := "id-" +:+ name;
                  UsersService.name := name;
                  UsersService.email := email;
                  UsersService.phone := phone;
                  UsersService.account_number := account_number;
                  UsersService.balance := balance;
                  UsersService.password := password |} ]);
     repo_updateUser id name email store :=
       Resolved
         (map (fun user =>
                 if hasId id user
                 then {| UsersService.id := UsersService.id user;
                         UsersService.name := name;
                         UsersService.email := email;
                         UsersService.phone := UsersService.phone user;
                         UsersService.account_number :=
                           UsersService.account_number user;
                         UsersService.balance := UsersService.balance user;
                         UsersService.password := UsersService.password user |}
                 else user)
            store);
     repo_updateBalance id account_number amount store :=
       Resolved
         (map (fun user =>
                 if hasId id user
                    && (UsersService.account_number user =? account_number)%string
                 then {| UsersService.id := UsersService.id user;
                         UsersService.name := UsersService.name user;
                         UsersService.email := UsersService.email user;
                         UsersService.phone := UsersService.phone user;
                         UsersService.account_number :=
                           UsersService.account_number user;
                         UsersService.balance := amount;
                         UsersService.password := UsersService.password user |}
                 else user)
            store);
     repo_deleteUser id store :=
       Resolved (List.filter (fun user => negb (hasId id user)) store);
     repo_getUserByEmail email store :=
       Resolved
         (List.find (fun user => (UsersService.email user =? email)%string) store);
     repo_changePassword id password store :=
       Resolved
         (true,
          map (fun user =>
                 if hasId id user
                 then {| UsersService.id := UsersService.id user;
                         UsersService.name := UsersService.name user;
                         UsersService.email := UsersService.email user;
                         UsersService.phone := UsersService.phone user;
                         UsersService.account_number :=
                           UsersService.account_number user;
                         UsersService.balance := UsersService.balance user;
                         UsersService.password := password |}
                 else user)
            store);
     repo_getUAN account_number store :=
       Resolved
         (List.find
            (fun user =>
               (UsersService.account_number user =? account_number)%string)
            store) |}.

(** The repository in memory with every command rejected (a store that
    cannot be written). *)
Definition readOnlyRepository : UsersRepository (list UsersService.User) :=
  {| repo_getUser := repo_getUser listRepository;
     repo_createUser _ _ _ _ _ _ _ := Thrown PromiseRejected;
     repo_updateUser _ _ _ _ := Thrown PromiseRejected;
     repo_updateBalance _ _ _ _ := Thrown PromiseRejected;
     repo_deleteUser _ _ := Thrown PromiseRejected;
     repo_getUserByEmail := repo_getUserByEmail listRepository;
     repo_changePassword _ _ _ := Thrown PromiseRejected;
     repo_getUAN := repo_getUAN listRepository |}.

(** Password utilities for the examples: the hash of [p] is [hashed:p]. *)
Definition sampleUtils : PasswordUtils :=
  {| hashPassword password := Resolved ("hashed:" +:+ password);
     passwordMatched password hash :=
       Resolved (hash =? "hashed:" +:+ password)%string |}.

(** Numbers for the examples: the integers in decimal, [None] for [NaN]. *)
Definition integerNumbers : Numbers (option Z) :=
  {| parseFloat s := Z.of_int <$> NilZero.int_of_string s;
     isNaN x := match x with Some _ => false | None => true end;
     leZero x := match x with Some z => z <=? 0 | None => false end;
     add x y :=
       match x, y with
       | Some a, Some b => Some (a + b)
       | _, _ => None
       end;
     toString x :=
       match x with
       | Some z => NilZero.string_of_int (Z.to_int z)
       | None => "NaN"
       end |}.

(** A store with one user whose password is [secret]. *)
Definition johnsStore : list UsersService.User :=
  [ {| UsersService.id := "id-John";
       UsersService.name := "John";
       UsersService.email := "john@example.com";
       UsersService.phone := "0800";
       UsersService.account_number := "5351234567";
       UsersService.balance := "5000";
       UsersService.password := "hashed:secret" |} ].

(** *** Order notions for [JS.sort] *)

(** [x] may come before [y] under the comparator [cmp]. *)
Definition before {A : Type} (cmp : A -> A -> Z) (x y : A) : Prop :=
  cmp x y <= 0.

(** [x] and [y] are tied under [cmp]: each may come before the other. *)
Definition tied {A : Type} (cmp : A -> A -> Z) (x y : A) : Prop :=
  cmp x y <= 0 /\ cmp y x <= 0.

#[global] Instance before_dec {A : Type} (cmp : A -> A -> Z) (x y : A) :
  Decision (before cmp x y).
Proof. unfold before. apply _. Defined.

#[global] Instance tied_dec {A : Type} (cmp : A -> A -> Z) (x y : A) :
  Decision (tied cmp x y).
Proof. unfold tied. apply _. Defined.

(** *** Notions of the specification for the query engine *)

(** The sort key the specification names: the lower-cased [name] when the
    field of the sort spec is [name], the lower-cased [email] for every
    other field. *)
Definition sortKey (field : string) (user : UsersService.User) : string :=
  JS.toLowerCase
    (if (field =? "name")%string then UsersService.name user
     else UsersService.email user).

(** The record's value of the named field contains [value]. *)
Definition matches (field value : string) (user : UsersService.User) : bool :=
  match UsersService.prop user field with
  | Some stored => JS.includes stored value
  | None => false
  end.

(** The fields of a user document that hold a string. *)
Definition stringField (field : string) : bool :=
  (field =? "id")%string || (field =? "name")%string
  || (field =? "email")%string || (field =? "phone")%string
  || (field =? "account_number")%string || (field =? "balance")%string
  || (field =? "password")%string.

(** The keys of a projected summary. *)
Definition summaryKeys : list string :=
  ["id"; "name"; "balance"; "email"; "phone"; "account_number"].

(** ** Part II: properties *)

(** *** The login throttle *)

Section Throttle.

Import AuthenticationController.

Implicit Types (loginAttempts : gmap string attempt) (email password : string).
Implicit Types (check : string -> string -> credentials) (now later : Z).

Lemma calculateRemainingTime_Some loginAttempts email r now :
  loginAttempts !! email = Some r ->
  calculateRemainingTime loginAttempts email now = Ret (remaining r now).
Proof. intros H. unfold calculateRemainingTime. now rewrite H. Qed.

(** An identity that has an entry: the count alone decides. *)
Lemma login_known check email password now later loginAttempts r :
  loginAttempts !! email = Some r ->
  login check email password now later loginAttempts =
    if 5 <? count r then (TooManyAttempts (remaining r now), loginAttempts)
    else match check email password with
         | Granted payload => (Ok200 payload, delete email loginAttempts)
         | Denied =>
             (WrongCredentials,
              <[email := {| count := count r + 1; timestamp := later |}]>
                loginAttempts)
         | Rejected => (OtherError, loginAttempts)
         end.
Proof.
  intros H. unfold login. rewrite H. cbn. rewrite H.
  rewrite (calculateRemainingTime_Some _ _ _ _ H).
  destruct (5 <? count r); [reflexivity |].
  now destruct (check email password).
Qed.

(** An identity without an entry: an entry with count 1 is made and the
    attempt goes on to the credential check. *)
Lemma login_unknown check email password now later loginAttempts :
  loginAttempts !! email = None ->
  login check email password now later loginAttempts =
    match check email password with
    | Granted payload => (Ok200 payload, loginAttempts)
    | Denied =>
        (WrongCredentials,
         <[email := {| count := 2; timestamp := later |}]> loginAttempts)
    | Rejected =>
        (OtherError,
         <[email := {| count := 1; timestamp := now |}]> loginAttempts)
    end.
Proof.
  intros H. unfold login. rewrite H. cbn.
  rewrite lookup_insert_eq. cbn.
  destruct (check email password); try reflexivity.
  - f_equal. rewrite delete_insert_eq. now apply delete_id.
  - f_equal. now rewrite insert_insert_eq.
Qed.

(** The handler rejects with "too many attempts" exactly when the entry's
    count is above 5; the clock plays no part. *)
Lemma login_rejects_iff check email password now later loginAttempts :
  (exists remainingTime,
      (login check email password now later loginAttempts).1
      = TooManyAttempts remainingTime)
  <-> exists r, loginAttempts !! email = Some r /\ 5 < count r.
Proof.
  destruct (loginAttempts !! email) as [r|] eqn:H.
  - rewrite (login_known _ _ _ _ _ _ _ H).
    destruct (5 <? count r) eqn:E.
    + apply Z.ltb_lt in E. split; intros _; eauto.
    + apply Z.ltb_ge in E. split.
      * intros [rem Hrem]. destruct (check email password); discriminate.
      * intros (r' & [= <-] & ?). lia.
  - rewrite (login_unknown _ _ _ _ _ _ H). split.
    + intros [rem Hrem]. destruct (check email password); discriminate.
    + intros (r' & [=] & _).
Qed.

(** A rejected attempt does not depend on the credential check. *)
Lemma login_locked_ignores_check check check' email password now later
    loginAttempts remainingTime loginAttempts' :
  login check email password now later loginAttempts
    = (TooManyAttempts remainingTime, loginAttempts') ->
  login check' email password now later loginAttempts
    = (TooManyAttempts remainingTime, loginAttempts').
Proof.
  destruct (loginAttempts !! email) as [r|] eqn:H.
  - rewrite !(login_known _ _ _ _ _ _ _ H).
    destruct (5 <? count r); [trivial |].
    destruct (check email password); discriminate.
  - rewrite (login_unknown _ _ _ _ _ _ H).
    destruct (check email password); discriminate.
Qed.

(** With a count of at most 5 the attempt reaches the credential check
    and its outcome is the outcome of that check. *)
Lemma login_allowed check email password now later loginAttempts r :
  loginAttempts !! email = Some r -> count r <= 5 ->
  (login check email password now later loginAttempts).1 =
    match check email password with
    | Granted payload => Ok200 payload
    | Denied => WrongCredentials
    | Rejected => OtherError
    end.
Proof.
  intros H Hle. rewrite (login_known _ _ _ _ _ _ _ H).
  destruct (Z.ltb_spec 5 (count r)); [lia |].
  now destruct (check email password).
Qed.

(** The reported seconds never grow as the clock advances. *)
Lemma remaining_monotone (r : attempt) now now' :
  now <= now' -> remaining r now' <= remaining r now.
Proof.
  intros Hle. unfold remaining.
  assert ((now - timestamp r) / 1000 <= (now' - timestamp r) / 1000)
    by (apply Z.div_le_mono; lia).
  lia.
Qed.
(** **** Claim C1 *)

(** C1.  The claim: an attempt is rejected as locked exactly when the
    failure count exceeds 5 and fewer than 1800 seconds have passed since
    the last failure, and is no longer rejected once the window is over.
    The handler at that input: the identity of [lockedOut] (count 6, last
    failure at clock 0), asked again one hour later, is still rejected, with
    a remaining time of 0 seconds, whatever the credential check would
    answer, and its entry stays. *)
Theorem C1_rejected_after_the_window :
  forall check password later,
    login check "user@example.com" password 3600000 later lockedOut
    = (TooManyAttempts 0, lockedOut).
Proof.
  intros. erewrite login_known by reflexivity. reflexivity.
Qed.

(** **** Claim C2 *)

(** C2, as stated, fails: the reported seconds do not strictly decrease
    with the clock.  At 0 ms and at 999 ms after the last failure the value
    is 1800 both times. *)
Lemma C2_not_strictly_decreasing :
  calculateRemainingTime lockedOut "user@example.com" 0 = Ret 1800
  /\ calculateRemainingTime lockedOut "user@example.com" 999 = Ret 1800.
Proof. split; reflexivity. Qed.

(** C2, amended.  For an identity with entry [r], the reported seconds at
    clock [now] are [max 0 (1800 - floor ((now - timestamp r) / 1000))]:
    never negative, never growing as the clock advances, strictly smaller
    after at least one more full second while still positive, and 0 exactly
    from 1800 seconds (1800000 ms) after the entry's timestamp on. *)
Theorem C2_remaining_time :
  forall loginAttempts email r,
    loginAttempts !! email = Some r ->
    (forall now,
        calculateRemainingTime loginAttempts email now
        = Ret (Z.max 0 (1800 - (now - timestamp r) / 1000)))
    /\ (forall now, remaining r now = Z.max 0 (1800 - (now - timestamp r) / 1000))
    /\ (forall now, 0 <= remaining r now)
    /\ (forall now now', now <= now' -> remaining r now' <= remaining r now)
    /\ (forall now now',
           now + 1000 <= now' -> 0 < remaining r now ->
           remaining r now' < remaining r now)
    /\ (forall now, remaining r now = 0 <-> 1800000 <= now - timestamp r).
Proof.
  intros la email r H. unfold remaining.
  split; [|split; [|split; [|split; [|split]]]].
  - intros now. now rewrite (calculateRemainingTime_Some _ _ _ _ H).
  - reflexivity.
  - intros. lia.
  - intros now now' Hle. now apply (remaining_monotone r).
  - intros now now' Hle Hpos.
    assert ((now - timestamp r) / 1000 + 1 <= (now' - timestamp r) / 1000).
    { replace ((now - timestamp r) / 1000 + 1)
        with ((now - timestamp r + 1 * 1000) / 1000)
        by (rewrite Z.div_add; lia).
      apply Z.div_le_mono; lia. }
    lia.
  - intros now. split; intros Hz.
    + assert (1800 <= (now - timestamp r) / 1000) by lia.
      destruct (Z.le_gt_cases 1800000 (now - timestamp r)) as [|Hlt]; [trivial|].
      assert ((now - timestamp r) / 1000 < 1800)
        by (apply Z.div_lt_upper_bound; lia).
      lia.
    + assert (1800000 / 1000 <= (now - timestamp r) / 1000)
        by (apply Z.div_le_mono; lia).
      change (1800000 / 1000) with 1800 in *. lia.
Qed.

Lemma C2_remaining_time_witness :
  lockedOut !! "user@example.com" = Some {| count := 6; timestamp := 0 |}
  /\ (forall now, remaining {| count := 6; timestamp := 0 |} now = 0
                  <-> 1800000 <= now - 0).
Proof.
  split; [reflexivity |].
  apply (C2_remaining_time lockedOut "user@example.com"
           {| count := 6; timestamp := 0 |}).
  reflexivity.
Defined.

(** **** Claim C3 *)

(** C3.  When an attempt for [email] succeeds, the new [loginAttempts] is
    the old one without the entry of [email], so [email] has no entry; and
    the next attempt for [email] runs as on any [loginAttempts] that never
    saw [email]: it is not rejected by the throttle, it starts from a fresh
    entry with count 1 (left as it is when the check raises, 2 after a
    failed check, removed again after a success), and its outcome and the
    entry it leaves are those of a first attempt. *)
Theorem C3_success_resets :
  forall check email password now later loginAttempts payload loginAttempts',
    login check email password now later loginAttempts
    = (Ok200 payload, loginAttempts') ->
    loginAttempts' = delete email loginAttempts
    /\ loginAttempts' !! email = None
    /\ (forall check' password' now' later',
           login check' email password' now' later' loginAttempts' =
             match check' email password' with
             | Granted payload' => (Ok200 payload', loginAttempts')
             | Denied =>
                 (WrongCredentials,
                  <[email := {| count := 2; timestamp := later' |}]>
                    loginAttempts')
             | Rejected =>
                 (OtherError,
                  <[email := {| count := 1; timestamp := now' |}]>
                    loginAttempts')
             end)
    /\ (forall first check' password' now' later',
           first !! email = None ->
           (login check' email password' now' later' loginAttempts').1
           = (login check' email password' now' later' first).1
           /\ (login check' email password' now' later' loginAttempts').2 !! email
              = (login check' email password' now' later' first).2 !! email).
Proof.
  intros check email password now later la payload la' Hlogin.
  assert (Hdel : la' = delete email la).
  { destruct (la !! email) as [r|] eqn:H.
    - rewrite (login_known _ _ _ _ _ _ _ H) in Hlogin.
      destruct (5 <? count r); [discriminate |].
      destruct (check email password); congruence.
    - rewrite (login_unknown _ _ _ _ _ _ H) in Hlogin.
      destruct (check email password); try discriminate.
      injection Hlogin as _ <-. symmetry. now apply delete_id. }
  assert (Hnone : la' !! email = None) by (subst la'; apply lookup_delete_eq).
  split; [exact Hdel |]. split; [exact Hnone |]. split.
  - intros. now apply login_unknown.
  - intros first check' password' now' later' Hfirst.
    rewrite (login_unknown _ _ _ _ _ _ Hnone), (login_unknown _ _ _ _ _ _ Hfirst).
    destruct (check' email password'); cbn; split; trivial.
    + now rewrite Hnone, Hfirst.
    + now rewrite !lookup_insert_eq.
    + now rewrite !lookup_insert_eq.
Qed.

Lemma C3_success_resets_witness :
  login (fun _ _ => Granted "token") "user@example.com" "secret" 10 20
    {[ "user@example.com" := {| count := 3; timestamp := 0 |} ]}
  = (Ok200 "token", ∅)
  /\ (∅ : gmap string attempt) !! "user@example.com" = None.
Proof.
  assert (H : login (fun _ _ => Granted "token") "user@example.com" "secret" 10 20
                {[ "user@example.com" := {| count := 3; timestamp := 0 |} ]}
              = (Ok200 "token", ∅)).
  { vm_compute. reflexivity. }
  split; [exact H |].
  exact (proj1 (proj2 (C3_success_resets _ _ _ _ _ _ _ _ H))).
Defined.

(** **** Claim C10 *)

(** C10.  A rejected attempt leaves [loginAttempts] as it was, count and
    timestamp of the identity included; hence every later attempt for the
    identity is rejected from the same entry, and the seconds it reports
    are those of that entry and never more than reported before. *)
Theorem C10_rejection_leaves_entry :
  forall check email password now later loginAttempts remainingTime loginAttempts',
    login check email password now later loginAttempts
    = (TooManyAttempts remainingTime, loginAttempts') ->
    loginAttempts' = loginAttempts
    /\ (exists r,
           loginAttempts !! email = Some r /\ loginAttempts' !! email = Some r
           /\ remainingTime = remaining r now
           /\ forall check' password' now' later',
               login check' email password' now' later' loginAttempts'
               = (TooManyAttempts (remaining r now'), loginAttempts')
               /\ (now <= now' -> remaining r now' <= remainingTime)).
Proof.
  intros check email password now later la rem la' Hlogin.
  destruct (la !! email) as [r|] eqn:H.
  - rewrite (login_known _ _ _ _ _ _ _ H) in Hlogin.
    destruct (5 <? count r) eqn:E.
    + injection Hlogin as <- <-. split; [reflexivity |].
      exists r. repeat split; trivial.
      * rewrite (login_known _ _ _ _ _ _ _ H). now rewrite E.
      * intros Hle. now apply remaining_monotone.
    + destruct (check email password); discriminate.
  - rewrite (login_unknown _ _ _ _ _ _ H) in Hlogin.
    destruct (check email password); discriminate.
Qed.

Lemma C10_rejection_leaves_entry_witness :
  login (fun _ _ => Denied) "user@example.com" "guess" 5000 6000 lockedOut
  = (TooManyAttempts 1795, lockedOut)
  /\ lockedOut = lockedOut.
Proof.
  assert (H : login (fun _ _ => Denied) "user@example.com" "guess" 5000 6000
                lockedOut = (TooManyAttempts 1795, lockedOut)).
  { vm_compute. reflexivity. }
  split; [exact H |].
  exact (proj1 (C10_rejection_leaves_entry _ _ _ _ _ _ _ _ H)).
Defined.

End Throttle.

(** *** Facts on the JavaScript primitives *)

Section Strings.

(** Number of occurrences of the code unit [sep] in [s]. *)
Lemma split_length (sep : ascii) (s : string) :
  length (JS.split sep s)
  = S (length (filter (fun c => c = sep) (String.list_ascii_of_string s))).
Proof.
  induction s as [|c s IH]; [reflexivity |].
  cbn [JS.split String.list_ascii_of_string]. rewrite filter_cons.
  destruct (Ascii.eqb_spec c sep) as [->|Hne].
  - rewrite decide_True by reflexivity. cbn. now rewrite IH.
  - rewrite decide_False by exact Hne.
    destruct (JS.split sep s); cbn in *; [discriminate | exact IH].
Qed.

Lemma append_String (c : ascii) (v post : string) :
  String.append (String c v) post = String c (String.append v post).
Proof. reflexivity. Qed.

Lemma prefix_append (v s : string) :
  String.prefix v s = true <-> exists post, s = String.append v post.
Proof.
  revert s. induction v as [|c v IH]; intros [|d s]; cbn.
  - split; [intros _; now exists EmptyString | trivial].
  - split; [intros _; now exists (String d s) | trivial].
  - split; [discriminate | intros [post [=]]].
  - destruct (ascii_dec c d) as [->|Hne].
    + rewrite IH. split; intros [post H]; exists post;
        rewrite append_String in *; congruence.
    + split; [discriminate |].
      intros [post H]. rewrite append_String in H. congruence.
Qed.

(** [includes] is the substring test: [v] occurs in [s], code unit by code
    unit. *)
Lemma includes_substring (s v : string) :
  JS.includes s v = true
  <-> exists pre post, s = String.append pre (String.append v post).
Proof.
  induction s as [|c s IH]; cbn [JS.includes]; rewrite orb_true_iff.
  - rewrite prefix_append. split.
    + intros [[post H]|H]; [|discriminate]. now exists EmptyString, post.
    + intros (pre & post & H). left. destruct pre; [now exists post |].
      rewrite append_String in H. discriminate.
  - rewrite prefix_append, IH. split.
    + intros [[post H]|(pre & post & H)].
      * now exists EmptyString, post.
      * exists (String c pre), post. rewrite append_String. now rewrite H.
    + intros (pre & post & H). destruct pre as [|d pre].
      * left. now exists post.
      * right. rewrite append_String in H. injection H as _ H.
        now exists pre, post.
Qed.

Lemma ascii_compare_refl (a : ascii) : Ascii.compare a a = Eq.
Proof. apply N.compare_refl. Qed.

Lemma string_compare_refl (s : string) : String.compare s s = Eq.
Proof.
  induction s as [|c s IH]; [reflexivity |].
  cbn. now rewrite ascii_compare_refl.
Qed.

Lemma string_compare_lt_trans (s1 s2 s3 : string) :
  String.compare s1 s2 = Lt -> String.compare s2 s3 = Lt ->
  String.compare s1 s3 = Lt.
Proof.
  revert s2 s3. induction s1 as [|a s1 IH]; intros [|b s2] [|c s3]; cbn;
    try discriminate; trivial.
  unfold Ascii.compare.
  destruct (N.compare_spec (N_of_ascii a) (N_of_ascii b)) as [Hab|Hab|Hab];
    try discriminate;
    destruct (N.compare_spec (N_of_ascii b) (N_of_ascii c)) as [Hbc|Hbc|Hbc];
    try discriminate; intros H1 H2.
  - rewrite Hab, Hbc, N.compare_refl. eauto.
  - rewrite Hab. now apply N.compare_lt_iff in Hbc as ->.
  - rewrite <- Hbc. now apply N.compare_lt_iff in Hab as ->.
  - assert (Hac : (N_of_ascii a < N_of_ascii c)%N) by lia.
    now apply N.compare_lt_iff in Hac as ->.
Qed.

Lemma string_leb_refl (s : string) : String.leb s s = true.
Proof. unfold String.leb. now rewrite string_compare_refl. Qed.

Lemma string_leb_trans (s1 s2 s3 : string) :
  String.leb s1 s2 = true -> String.leb s2 s3 = true -> String.leb s1 s3 = true.
Proof.
  unfold String.leb.
  destruct (String.compare s1 s2) eqn:H12; try discriminate;
    destruct (String.compare s2 s3) eqn:H23; try discriminate; intros _ _.
  - apply String.compare_eq_iff in H12, H23. subst.
    now rewrite string_compare_refl.
  - apply String.compare_eq_iff in H12. subst. now rewrite H23.
  - apply String.compare_eq_iff in H23. subst. now rewrite H12.
  - now rewrite (string_compare_lt_trans _ _ _ H12 H23).
Qed.

(** [a < b] fails exactly when [b <= a]. *)
Lemma string_ltb_leb (s1 s2 : string) :
  String.ltb s1 s2 = negb (String.leb s2 s1).
Proof.
  unfold String.ltb, String.leb. rewrite (String.compare_antisym s1 s2).
  now destruct (String.compare s2 s1).
Qed.

End Strings.

(** *** The stable sort *)

Lemma StronglySorted_weaken {A : Type} (R S : A -> A -> Prop) (l : list A) :
  (forall x y, R x y -> S x y) -> StronglySorted R l -> StronglySorted S l.
Proof.
  intros HRS. induction 1 as [|x l Hl IH Hx]; constructor; [exact IH |].
  eapply Forall_impl; [exact Hx | intros y; apply HRS].
Qed.

Section StableSort.

Context {A : Type} (cmp : A -> A -> Z).

Hypothesis cmp_total : forall x y, before cmp x y \/ before cmp y x.
Hypothesis cmp_trans :
  forall x y z, before cmp x y -> before cmp y z -> before cmp x z.

Lemma insert_Permutation (x : A) (l : list A) : JS.insert cmp x l ≡ₚ x :: l.
Proof.
  induction l as [|y l IH]; cbn; [reflexivity |].
  destruct (cmp x y <=? 0); [reflexivity |].
  rewrite IH. apply Permutation_swap.
Qed.

Lemma sort_Permutation (l : list A) : JS.sort cmp l ≡ₚ l.
Proof.
  induction l as [|x l IH]; cbn; [reflexivity |].
  now rewrite insert_Permutation, IH.
Qed.

Lemma insert_sorted (x : A) (l : list A) :
  StronglySorted (before cmp) l -> StronglySorted (before cmp) (JS.insert cmp x l).
Proof.
  induction 1 as [|y l Hl IH Hy]; cbn.
  - repeat constructor.
  - destruct (Z.leb_spec (cmp x y) 0) as [Hle|Hgt].
    + constructor; [now constructor |].
      constructor; [exact Hle |].
      eapply Forall_impl; [exact Hy |]. intros z Hz. now apply (cmp_trans x y z).
    + constructor; [exact IH |].
      rewrite insert_Permutation. constructor; [|exact Hy].
      destruct (cmp_total x y) as [H|H]; [unfold before in H; lia | exact H].
Qed.

Lemma sort_sorted (l : list A) : StronglySorted (before cmp) (JS.sort cmp l).
Proof.
  induction l as [|x l IH]; cbn; [constructor | now apply insert_sorted].
Qed.

(** Inserting [x] puts it in front of everything it is tied with. *)
Lemma filter_insert (P : A -> Prop) `{!forall x, Decision (P x)}
    (x : A) (l : list A) :
  (forall y, P x -> P y -> before cmp x y) ->
  filter P (JS.insert cmp x l) = filter P (x :: l).
Proof.
  intros HP. induction l as [|y l IH]; cbn [JS.insert]; [reflexivity |].
  destruct (Z.leb_spec (cmp x y) 0) as [Hle|Hgt]; [reflexivity |].
  rewrite filter_cons, IH, !filter_cons.
  destruct (decide (P y)) as [Hy|Hy], (decide (P x)) as [Hx|Hx]; trivial.
  specialize (HP y Hx Hy). unfold before in HP. lia.
Qed.

Lemma filter_sort (P : A -> Prop) `{!forall x, Decision (P x)} (l : list A) :
  (forall x y, P x -> P y -> before cmp x y) ->
  filter P (JS.sort cmp l) = filter P l.
Proof.
  intros HP. induction l as [|x l IH]; cbn [JS.sort]; [reflexivity |].
  rewrite filter_insert by (intros y; apply HP).
  now rewrite !filter_cons, IH.
Qed.

(** Stability: the elements tied with any [z] keep their order. *)
Lemma sort_stable (z : A) (l : list A) :
  filter (tied cmp z) (JS.sort cmp l) = filter (tied cmp z) l.
Proof.
  apply filter_sort. intros x y [_ Hxz] [Hzy _]. now apply (cmp_trans x z y).
Qed.

Lemma tied_refl (x : A) : tied cmp x x.
Proof. destruct (cmp_total x x); now split. Qed.

(** Two sorted lists with the same elements in every class of tied
    elements, in the same order, are equal. *)
Lemma stable_sorted_unique (l1 l2 : list A) :
  StronglySorted (before cmp) l1 -> StronglySorted (before cmp) l2 ->
  (forall z, filter (tied cmp z) l1 = filter (tied cmp z) l2) ->
  l1 = l2.
Proof.
  intros H1. revert l2.
  induction H1 as [|x l1 Hl1 IH Hx]; intros l2 H2 Hcls.
  - destruct l2 as [|y l2]; [reflexivity |].
    specialize (Hcls y). rewrite filter_cons_True in Hcls by apply tied_refl.
    discriminate.
  - destruct H2 as [|y l2 Hl2 Hy].
    { specialize (Hcls x). rewrite filter_cons_True in Hcls by apply tied_refl.
      discriminate. }
    assert (Hxy : x = y).
    { destruct (decide (tied cmp x y)) as [Ht|Hnt].
      - specialize (Hcls x).
        rewrite !filter_cons_True in Hcls by (trivial; apply tied_refl).
        congruence.
      - exfalso. apply Hnt. split.
        + assert (Hin : y ∈ filter (tied cmp y) (x :: l1)).
          { rewrite Hcls, filter_cons_True by apply tied_refl. left. }
          rewrite filter_cons_False in Hin
            by (intros [? ?]; apply Hnt; now split).
          apply list_elem_of_filter in Hin as [_ Hin].
          rewrite Forall_forall in Hx. now apply Hx.
        + assert (Hin : x ∈ filter (tied cmp x) (y :: l2)).
          { rewrite <- Hcls, filter_cons_True by apply tied_refl. left. }
          rewrite filter_cons_False in Hin by exact Hnt.
          apply list_elem_of_filter in Hin as [_ Hin].
          rewrite Forall_forall in Hy. now apply Hy. }
    subst y. f_equal. apply IH; [exact Hl2 |].
    intros z. specialize (Hcls z). rewrite !filter_cons in Hcls.
    destruct (decide (tied cmp z x)); congruence.
Qed.

(** [JS.sort] is the only sorted, stable rearrangement. *)
Lemma sort_unique (l l' : list A) :
  StronglySorted (before cmp) l' ->
  (forall z, filter (tied cmp z) l' = filter (tied cmp z) l) ->
  l' = JS.sort cmp l.
Proof.
  intros Hs Hcls. apply stable_sorted_unique; [exact Hs | apply sort_sorted |].
  intros z. now rewrite sort_stable.
Qed.

End StableSort.

(** *** The user query engine *)

Section QueryEngine.

Import UsersService.

Implicit Types (user a b : User) (users filteredUsers : list User).
Implicit Types (field value order sortBy : string) (page : Z).

(** **** Property access *)

Lemma prop_sortByOf user field :
  prop user (sortByOf field)
  = Some (if (field =? "name")%string then name user else email user).
Proof.
  unfold sortByOf.
  destruct (String.eqb_spec field "name") as [->|Hn]; [reflexivity |].
  destruct (String.eqb_spec field "email") as [->|He]; reflexivity.
Qed.

Lemma sortValue_sortByOf user field :
  JS.toLowerCase (sortValue user (sortByOf field)) = sortKey field user.
Proof. unfold sortValue, sortKey. now rewrite prop_sortByOf. Qed.

(** **** The comparator *)

Lemma sortOrderOf_cases order :
  (order = "desc" /\ sortOrderOf order = -1)
  \/ (order <> "desc" /\ sortOrderOf order = 1).
Proof.
  unfold sortOrderOf. destruct (String.eqb_spec order "desc"); auto.
Qed.

Lemma before_ascending field a b :
  before (compareUsers (sortByOf field) 1) a b
  <-> String.leb (sortKey field a) (sortKey field b) = true.
Proof.
  unfold before, compareUsers. rewrite !sortValue_sortByOf.
  rewrite (string_ltb_leb (sortKey field b)).
  destruct (String.ltb (sortKey field a) (sortKey field b)) eqn:Hlt.
  - rewrite string_ltb_leb in Hlt. apply negb_true_iff in Hlt.
    destruct (String.leb_total (sortKey field a) (sortKey field b)) as [H|H];
      [rewrite H; split; [trivial | lia] | congruence].
  - destruct (String.leb (sortKey field a) (sortKey field b)); cbn;
      split; (lia || discriminate || trivial).
Qed.

Lemma before_descending field a b :
  before (compareUsers (sortByOf field) (-1)) a b
  <-> String.leb (sortKey field b) (sortKey field a) = true.
Proof.
  unfold before, compareUsers. rewrite !sortValue_sortByOf.
  rewrite (string_ltb_leb (sortKey field a)).
  destruct (String.leb (sortKey field b) (sortKey field a)) eqn:Hle; cbn.
  - split; [trivial | intros _].
    destruct (String.ltb (sortKey field b) (sortKey field a)); lia.
  - split; [lia | discriminate].
Qed.

Lemma before_order field order a b :
  before (compareUsers (sortByOf field) (sortOrderOf order)) a b
  <-> if decide (order = "desc")
      then String.leb (sortKey field b) (sortKey field a) = true
      else String.leb (sortKey field a) (sortKey field b) = true.
Proof.
  destruct (sortOrderOf_cases order) as [[Ho ->]|[Ho ->]].
  - rewrite decide_True by exact Ho. apply before_descending.
  - rewrite decide_False by exact Ho. apply before_ascending.
Qed.

Lemma compareUsers_total field order a b :
  before (compareUsers (sortByOf field) (sortOrderOf order)) a b
  \/ before (compareUsers (sortByOf field) (sortOrderOf order)) b a.
Proof.
  rewrite !before_order. destruct (decide (order = "desc"));
    destruct (String.leb_total (sortKey field a) (sortKey field b)); auto.
Qed.

Lemma compareUsers_trans field order a b c :
  before (compareUsers (sortByOf field) (sortOrderOf order)) a b ->
  before (compareUsers (sortByOf field) (sortOrderOf order)) b c ->
  before (compareUsers (sortByOf field) (sortOrderOf order)) a c.
Proof.
  rewrite !before_order. destruct (decide (order = "desc")); intros H1 H2.
  - exact (string_leb_trans _ _ _ H2 H1).
  - exact (string_leb_trans _ _ _ H1 H2).
Qed.

(** Two users are tied exactly when their sort keys are equal. *)
Lemma tied_sortKey field order a b :
  tied (compareUsers (sortByOf field) (sortOrderOf order)) a b
  <-> sortKey field a = sortKey field b.
Proof.
  unfold tied. fold (before (compareUsers (sortByOf field) (sortOrderOf order)) a b).
  fold (before (compareUsers (sortByOf field) (sortOrderOf order)) b a).
  rewrite !before_order. split.
  - destruct (decide (order = "desc")); intros [H1 H2];
      [symmetry|]; now apply String.leb_antisym.
  - intros ->. destruct (decide (order = "desc")); split; apply string_leb_refl.
Qed.

(** **** The sort stage *)

Lemma sortStage_wellformed sort field order users :
  sortParts sort = [field; order] ->
  sortStage (Some sort) users
  = JS.sort (compareUsers (sortByOf field) (sortOrderOf order)) users.
Proof.
  intros H. destruct sort as [|c sort]; [discriminate |].
  unfold sortStage. now rewrite H.
Qed.

Lemma sortStage_Permutation sort users : sortStage sort users ≡ₚ users.
Proof.
  unfold sortStage. destruct sort as [[|c sort]|]; try reflexivity.
  destruct (sortParts _) as [|? [|? [|? ?]]]; try reflexivity.
  apply sort_Permutation.
Qed.

Lemma sortStage_length sort users :
  length (sortStage sort users) = length users.
Proof. apply Permutation_length, sortStage_Permutation. Qed.

(** **** The page loop *)

Lemma pageLoop_slice fuel users i endIndex data :
  0 <= i -> Z.of_nat (length users) - i <= Z.of_nat fuel ->
  pageLoop fuel users i endIndex data
  = Ret (data ++ map project (take (Z.to_nat (endIndex - i))
                                (drop (Z.to_nat i) users))).
Proof.
  revert i data. induction fuel as [|fuel IH]; intros i data Hi Hfuel;
    cbn [pageLoop];
    destruct (Z.ltb_spec i endIndex) as [Hend|Hend];
    destruct (Z.ltb_spec i (Z.of_nat (length users))) as [Hlen|Hlen]; cbn [andb];
    try lia.
  all: try (replace (Z.to_nat (endIndex - i)) with 0%nat by lia;
            now rewrite take_0, app_nil_r).
  all: try (rewrite drop_ge by lia; now rewrite take_nil, app_nil_r).
  unfold at_index. destruct (Z.ltb_spec i 0) as [|_]; [lia |].
  destruct (lookup_lt_is_Some_2 users (Z.to_nat i)) as [u Hu]; [lia |].
  rewrite Hu, IH by lia.
  rewrite (drop_S _ _ _ Hu).
  replace (Z.to_nat (endIndex - i)) with (S (Z.to_nat (endIndex - (i + 1)))) by lia.
  replace (Z.to_nat (i + 1)) with (S (Z.to_nat i)) by lia.
  cbn [take map]. now rewrite <- app_assoc.
Qed.

Lemma pageLoop_negative fuel users i endIndex data :
  i < 0 ->
  pageLoop (S fuel) users i endIndex data
  = if i <? endIndex then Throw TypeError else Ret data.
Proof.
  intros Hi. cbn [pageLoop].
  destruct (Z.ltb_spec i (Z.of_nat (length users))); [|lia].
  rewrite andb_true_r. unfold at_index.
  destruct (Z.ltb_spec i 0); [reflexivity | lia].
Qed.

(** The step bound of the loop is never used up. *)
Lemma pageLoop_fuel users i endIndex data :
  pageLoop (S (length users)) users i endIndex data <> Throw OutOfFuel.
Proof.
  destruct (Z.lt_ge_cases i 0).
  - rewrite pageLoop_negative by trivial. now destruct (i <? endIndex).
  - rewrite pageLoop_slice by lia. discriminate.
Qed.

(** Every element of [data] is the projection of a user of the array. *)
Lemma pageLoop_projects fuel users i endIndex data data' :
  pageLoop fuel users i endIndex data = Ret data' ->
  forall item, item ∈ data' ->
               item ∈ data \/ exists user, user ∈ users /\ item = project user.
Proof.
  revert i data. induction fuel as [|fuel IH]; intros i data; cbn [pageLoop];
    destruct ((i <? endIndex) && (i <? Z.of_nat (length users)));
    try discriminate; try (intros [= <-]; auto).
  unfold at_index. destruct (i <? 0); [discriminate |].
  destruct (users !! Z.to_nat i) as [u|] eqn:Hu; [|discriminate].
  intros Hloop item Hitem. destruct (IH _ _ Hloop item Hitem) as [Hin|Hin]; auto.
  apply elem_of_app in Hin as [Hin|Hin]; auto.
  apply list_elem_of_singleton in Hin. right. exists u.
  split; [now apply list_elem_of_lookup_2 with (Z.to_nat i) | exact Hin].
Qed.

(** **** Claim C5 *)

(** C5.  For a sort spec with exactly two parts [field:order] (trimmed and
    lower-cased), the sort stage rearranges the users by the lower-cased
    [name] when [field] is [name] and by the lower-cased [email] for every
    other field, comparing the keys as strings, code unit by code unit: the
    result is a permutation that is descending when [order] is [desc] and
    ascending for every other [order], the empty one included, and users
    with equal keys keep their order.  The first page without a page size
    is that list, projected. *)
Theorem C5_sort_stage :
  forall sort field order users,
    sortParts sort = [field; order] ->
    sortStage (Some sort) users ≡ₚ users
    /\ StronglySorted
         (fun a b =>
            if decide (order = "desc")
            then String.leb (sortKey field b) (sortKey field a) = true
            else String.leb (sortKey field a) (sortKey field b) = true)
         (sortStage (Some sort) users)
    /\ (forall key,
           filter (fun user => sortKey field user = key) (sortStage (Some sort) users)
           = filter (fun user => sortKey field user = key) users)
    /\ (exists result,
           getUsers 1 None None (Some sort) users = Some result
           /\ data result = map project (sortStage (Some sort) users)).
Proof.
  intros sort field order users Hparts.
  split; [apply sortStage_Permutation |]. split; [|split].
  - rewrite (sortStage_wellformed _ _ _ _ Hparts).
    eapply StronglySorted_weaken;
      [|apply sort_sorted;
        [intros; apply compareUsers_total | intros ? ? ?; apply compareUsers_trans]].
    intros a b Hab. now apply before_order in Hab.
  - intros key. rewrite (sortStage_wellformed _ _ _ _ Hparts).
    apply filter_sort. intros a b Ha Hb.
    apply (proj1 (proj2 (tied_sortKey field order a b) (eq_trans Ha (eq_sym Hb)))).
  - unfold getUsers, getUsers_body, pageStage. cbn [searchStage bind effectiveLimit].
    rewrite pageLoop_slice by (rewrite ?sortStage_length; lia).
    cbn [bind]. eexists. split; [reflexivity |]. cbn [data app].
    rewrite Z.mul_0_l, drop_0. f_equal.
    apply take_ge. rewrite sortStage_length. lia.
Qed.

Lemma C5_sort_stage_witness :
  sortParts "NAME : Desc" = ["name"; "desc"]
  /\ map name (sortStage (Some "NAME : Desc") threeUsers) ≡ₚ map name threeUsers.
Proof.
  split; [reflexivity |].
  apply Permutation_map.
  exact (proj1 (C5_sort_stage "NAME : Desc" "name" "desc" threeUsers eq_refl)).
Defined.

(** **** The page stage *)

(** [Math.ceil(n / size)] for a positive [size] is the least number of
    pages of [size] elements that hold [n] elements. *)
Lemma ceil_div_positive (n size : Z) :
  1 <= size ->
  exists totalPages,
    JS.ceil_div n size = JS.Int totalPages
    /\ (totalPages - 1) * size < n <= totalPages * size.
Proof.
  intros Hsize. unfold JS.ceil_div.
  destruct (Z.eqb_spec size 0); [lia |].
  exists (- (- n / size)). split; [reflexivity |].
  pose proof (Z.div_mod (- n) size ltac:(lia)).
  pose proof (Z.mod_pos_bound (- n) size ltac:(lia)).
  nia.
Qed.

Lemma pageStage_projects page limit filteredCount filteredUsers result :
  pageStage page limit filteredCount filteredUsers = Ret result ->
  forall item, item ∈ data result ->
               exists user, user ∈ filteredUsers /\ item = project user.
Proof.
  unfold pageStage.
  destruct (pageLoop _ _ _ _ _) as [data'|e] eqn:Hloop; [|discriminate].
  cbn [bind]. intros [= <-] item Hitem. cbn [data] in Hitem.
  destruct (pageLoop_projects _ _ _ _ _ _ Hloop item Hitem) as [Hin|Hin];
    [now apply elem_of_nil in Hin | exact Hin].
Qed.

(** From page 1 on the page stage returns, whatever the limit. *)
Lemma pageStage_page_ge_1 page limit filteredCount filteredUsers :
  1 <= page ->
  exists result,
    pageStage page limit filteredCount filteredUsers = Ret result
    /\ count result = filteredCount
    /\ page_number result = page
    /\ page_size result = effectiveLimit limit filteredCount.
Proof.
  intros Hpage. unfold pageStage.
  set (size := effectiveLimit limit filteredCount).
  destruct (pageLoop (S (length filteredUsers)) filteredUsers
              ((page - 1) * size) (page * size) []) as [data'|e] eqn:Hloop.
  - cbn [bind]. eexists. repeat split; reflexivity.
  - exfalso. destruct (Z.lt_ge_cases ((page - 1) * size) 0) as [Hneg|Hpos].
    + rewrite pageLoop_negative in Hloop by exact Hneg.
      destruct (Z.ltb_spec ((page - 1) * size) (page * size)); [nia | discriminate].
    + rewrite pageLoop_slice in Hloop by lia. discriminate.
Qed.

(** **** The search stage *)

Lemma prop_stringField user field :
  is_Some (prop user field) <-> stringField field = true.
Proof.
  unfold prop, stringField.
  repeat (destruct (String.eqb field _);
          [rewrite ?orb_true_r; split; eauto |]).
  split; [intros [? [=]] | discriminate].
Qed.

Lemma prop_known_or_unknown field :
  (forall user, is_Some (prop user field)) \/ (forall user, prop user field = None).
Proof.
  destruct (stringField field) eqn:H.
  - left. intros user. now apply prop_stringField.
  - right. intros user. apply eq_None_not_Some.
    rewrite prop_stringField. congruence.
Qed.

Lemma filterBySearch_known field value users :
  (forall user, is_Some (prop user field)) ->
  filterBySearch field value users
  = Ret (filter (fun user => matches field value user = true) users).
Proof.
  intros Hknown. induction users as [|u users IH]; [reflexivity |].
  cbn [filterBySearch]. destruct (Hknown u) as [stored Hstored].
  rewrite Hstored, IH. cbn [bind]. rewrite filter_cons.
  assert (Hm : matches field value u = JS.includes stored value)
    by (unfold matches; now rewrite Hstored).
  rewrite Hm. destruct (JS.includes stored value);
    [now rewrite decide_True | now rewrite decide_False].
Qed.

Lemma filterBySearch_unknown field value user users :
  (forall user, prop user field = None) ->
  filterBySearch field value (user :: users) = Throw TypeError.
Proof. intros Hunknown. cbn. now rewrite Hunknown. Qed.

Lemma filter_matches_unknown field value users :
  (forall user, prop user field = None) ->
  filter (fun user => matches field value user = true) users = [].
Proof.
  intros Hunknown. induction users as [|u users IH]; [reflexivity |].
  rewrite filter_cons_False; [exact IH |].
  unfold matches. now rewrite Hunknown.
Qed.

(** What a search spec with two parts does to the query. *)
Lemma getUsers_body_search page limit search sort users field value :
  searchParts search = [field; value] ->
  getUsers_body page limit (Some search) sort users =
    match filter (fun user => matches field value user = true) users with
    | [] =>
        match users with
        | [] => Ret None
        | _ :: _ => if stringField field then Ret None else Throw TypeError
        end
    | kept => getUsers_body page limit None sort kept
    end.
Proof.
  intros Hparts. destruct search as [|c search]; [discriminate |].
  unfold getUsers_body at 1. unfold searchStage. rewrite Hparts.
  destruct (stringField field) eqn:Hfield.
  - rewrite filterBySearch_known by (intros; now apply prop_stringField).
    cbn [bind].
    destruct (filter _ users) as [|k kept]; [now destruct users |].
    reflexivity.
  - assert (Hunknown : forall user, prop user field = None).
    { intros user. apply eq_None_not_Some. rewrite prop_stringField. congruence. }
    rewrite filter_matches_unknown by exact Hunknown.
    destruct users as [|u users]; [reflexivity |].
    now rewrite filterBySearch_unknown.
Qed.

Lemma getUsers_search page limit search sort users field value :
  searchParts search = [field; value] ->
  getUsers page limit (Some search) sort users =
    match filter (fun user => matches field value user = true) users with
    | [] => None
    | kept => getUsers page limit None sort kept
    end.
Proof.
  intros Hparts. unfold getUsers.
  rewrite (getUsers_body_search _ _ _ _ _ _ _ Hparts).
  destruct (filter _ users) as [|k kept]; [|reflexivity].
  destruct users; [reflexivity |].
  now destruct (stringField field).
Qed.

(** The survivors of the search stage are users of the array. *)
Lemma searchStage_subset search users filteredUsers :
  searchStage search users = Ret (Some filteredUsers) ->
  forall user, user ∈ filteredUsers -> user ∈ users.
Proof.
  unfold searchStage.
  destruct search as [[|c search]|]; try (intros [= <-]; trivial).
  destruct (searchParts _) as [|field [|value [|? ?]]];
    try (intros [= <-]; trivial).
  destruct (prop_known_or_unknown field) as [Hknown|Hunknown].
  - rewrite filterBySearch_known by exact Hknown. cbn [bind].
    destruct (_ =? 0); [discriminate |]. intros [= <-] user Hin.
    now apply list_elem_of_filter in Hin.
  - destruct users as [|u users]; [cbn; discriminate |].
    now rewrite filterBySearch_unknown.
Qed.

(** What a query without a search returns. *)
Lemma getUsers_body_no_search page limit sort users :
  getUsers_body page limit None sort users =
    bind (pageStage page limit (Z.of_nat (length users)) (sortStage sort users))
         (fun result => Ret (Some result)).
Proof. reflexivity. Qed.

(** The step bound is never what ends a query. *)
Lemma getUsers_body_fuel page limit search sort users :
  getUsers_body page limit search sort users <> Throw OutOfFuel.
Proof.
  unfold getUsers_body.
  assert (Hsearch : searchStage search users <> Throw OutOfFuel).
  { unfold searchStage. destruct search as [[|c search]|]; try discriminate.
    destruct (searchParts _) as [|field [|value [|? ?]]]; try discriminate.
    destruct (prop_known_or_unknown field) as [Hknown|Hunknown].
    - rewrite filterBySearch_known by exact Hknown. cbn [bind].
      now destruct (_ =? 0).
    - destruct users; [cbn; discriminate |].
      now rewrite filterBySearch_unknown. }
  destruct (searchStage search users) as [[filtered|]|e]; cbn [bind];
    [|discriminate | congruence].
  unfold pageStage.
  pose proof (pageLoop_fuel (sortStage sort filtered)
                ((page - 1) * effectiveLimit limit (Z.of_nat (length filtered)))
                (page * effectiveLimit limit (Z.of_nat (length filtered))) [])
    as Hfuel.
  destruct (pageLoop _ _ _ _ _) as [d|e]; cbn [bind]; congruence.
Qed.

Lemma searchStage_malformed search users :
  length (searchParts search) <> 2%nat ->
  searchStage (Some search) users = Ret (Some users).
Proof.
  intros H. unfold searchStage. destruct search as [|c search]; [reflexivity |].
  destruct (searchParts _) as [|? [|? [|? ?]]]; trivial. now cbn in H.
Qed.

Lemma sortStage_malformed sort users :
  length (sortParts sort) <> 2%nat -> sortStage (Some sort) users = users.
Proof.
  intros H. unfold sortStage. destruct sort as [|c sort]; [reflexivity |].
  destruct (sortParts _) as [|? [|? [|? ?]]]; trivial. now cbn in H.
Qed.

(** **** Claim C4 *)

(** C4.  For a search spec with exactly two parts [field:value] (trimmed):
    a user matches when [field] names one of its string fields and the
    stored value contains [value] as a substring, code unit by code unit;
    the query is the query without a search over exactly the matching
    users, in their order, so its count is their number; and when no user
    matches the service returns [null], which the handler answers with
    NOT_FOUND, not with a page. *)
Theorem C4_search :
  forall search sort users field value,
    searchParts search = [field; value] ->
    (forall user,
        matches field value user = true
        <-> exists stored pre post,
              prop user field = Some stored
              /\ stored = String.append pre (String.append value post))
    /\ (forall page limit,
           getUsers page limit (Some search) sort users =
             match filter (fun user => matches field value user = true) users with
             | [] => None
             | kept => getUsers page limit None sort kept
             end)
    /\ (forall page limit result,
           getUsers page limit (Some search) sort users = Some result ->
           count result
           = Z.of_nat (length (filter (fun user => matches field value user = true)
                                  users))
           /\ 0 < count result)
    /\ (filter (fun user => matches field value user = true) users = [] ->
        forall page_number page_size,
          UsersController.getUsers page_number page_size (Some search) sort users
          = UsersController.NotFound).
Proof.
  intros search sort users field value Hparts. split; [|split; [|split]].
  - intros user. unfold matches. destruct (prop user field) as [stored|].
    + rewrite includes_substring. split.
      * intros (pre & post & H). now exists stored, pre, post.
      * intros (stored' & pre & post & [= <-] & H). now exists pre, post.
    + split; [discriminate | intros (? & ? & ? & [=] & _)].
  - intros page limit. now apply getUsers_search.
  - intros page limit result.
    rewrite (getUsers_search _ _ _ _ _ _ _ Hparts).
    destruct (filter _ users) as [|k kept]; [discriminate |].
    unfold getUsers. rewrite getUsers_body_no_search. unfold pageStage.
    destruct (pageLoop _ _ _ _ _); cbn [bind]; [|discriminate].
    intros [= <-]. cbn [count length]. lia.
  - intros Hnone page_number page_size. unfold UsersController.getUsers.
    now rewrite (getUsers_search _ _ _ _ _ _ _ Hparts), Hnone.
Qed.

Lemma C4_search_witness :
  searchParts "name:Jo" = ["name"; "Jo"]
  /\ getUsers 1 None (Some "name:Jo") None threeUsers
     = Some {| page_number := 1;
               page_size := 2;
               count := 2;
               total_pages := JS.Int 1;
               has_previous_page := false;
               has_next_page := false;
               data := [ project (sampleUser "John" "john@example.com");
                         project (sampleUser "Joan" "joan@example.com") ] |}.
Proof.
  split; [reflexivity |].
  rewrite (proj1 (proj2 (C4_search "name:Jo" None threeUsers "name" "Jo" eq_refl))
             1 None).
  reflexivity.
Defined.

(** A query with a page number and a page size of at least 1. *)
Lemma getUsers_paged page pageSize search sort users filteredUsers :
  1 <= page -> 1 <= pageSize ->
  searchStage search users = Ret (Some filteredUsers) ->
  getUsers page (Some pageSize) search sort users
  = Some {| page_number := page;
            page_size := pageSize;
            count := Z.of_nat (length filteredUsers);
            total_pages := JS.ceil_div (Z.of_nat (length filteredUsers)) pageSize;
            has_previous_page := 1 <? page;
            has_next_page :=
              JS.lt_number page
                (JS.ceil_div (Z.of_nat (length filteredUsers)) pageSize);
            data := map project
                      (take (Z.to_nat pageSize)
                         (drop (Z.to_nat ((page - 1) * pageSize))
                            (sortStage sort filteredUsers))) |}.
Proof.
  intros Hpage Hsize Hsearch.
  unfold getUsers, getUsers_body. rewrite Hsearch. cbn [bind].
  unfold pageStage, effectiveLimit.
  destruct (Z.eqb_spec pageSize 0) as [|_]; [lia |].
  rewrite pageLoop_slice by (rewrite ?sortStage_length; nia).
  cbn [bind app].
  replace (page * pageSize - (page - 1) * pageSize) with pageSize by lia.
  reflexivity.
Qed.

(** **** Claim C6 *)

(** C6.  For a page number of at least 1 and a page size of at least 1,
    over the users that the search stage lets through and the sort stage
    has ordered: [data] is the projection of the elements at the indexes
    from [(page - 1) * pageSize] up to, not including, [page * pageSize]
    that exist; [count] is the number of filtered users; [total_pages] is
    the least number of pages that hold them all; [has_previous_page] is
    [1 < page] and [has_next_page] is [page < total_pages]; and a page
    beyond the last has no items. *)
Theorem C6_pagination :
  forall page pageSize search sort users filteredUsers,
    1 <= page -> 1 <= pageSize ->
    searchStage search users = Ret (Some filteredUsers) ->
    exists result totalPages,
      getUsers page (Some pageSize) search sort users = Some result
      /\ data result
         = map project
             (take (Z.to_nat pageSize)
                (drop (Z.to_nat ((page - 1) * pageSize))
                   (sortStage sort filteredUsers)))
      /\ page_number result = page
      /\ page_size result = pageSize
      /\ count result = Z.of_nat (length filteredUsers)
      /\ total_pages result = JS.Int totalPages
      /\ (totalPages - 1) * pageSize < Z.of_nat (length filteredUsers)
         <= totalPages * pageSize
      /\ has_previous_page result = (1 <? page)
      /\ has_next_page result = (page <? totalPages)
      /\ (totalPages < page -> data result = []).
Proof.
  intros page pageSize search sort users filtered Hpage Hsize Hsearch.
  destruct (ceil_div_positive (Z.of_nat (length filtered)) pageSize Hsize)
    as (totalPages & Hceil & Hbounds).
  eexists _, totalPages.
  split; [apply getUsers_paged; eassumption |].
  cbn [data page_number page_size count total_pages has_previous_page
       has_next_page].
  rewrite Hceil. cbn [JS.lt_number].
  repeat split; try lia.
  intros Hbeyond. rewrite drop_ge; [now rewrite take_nil |].
  rewrite sortStage_length. nia.
Qed.

Lemma C6_pagination_witness :
  1 <= 4 /\ 1 <= 2
  /\ searchStage None fiveUsers = Ret (Some fiveUsers)
  /\ exists result,
       getUsers 4 (Some 2) None None fiveUsers = Some result
       /\ data result = []
       /\ count result = 5
       /\ total_pages result = JS.Int 3
       /\ has_previous_page result = true
       /\ has_next_page result = false.
Proof.
  split; [lia |]. split; [lia |]. split; [reflexivity |].
  destruct (C6_pagination 4 2 None None fiveUsers fiveUsers
              ltac:(lia) ltac:(lia) eq_refl)
    as (result & totalPages & Hget & _ & _ & _ & Hcount & Htotal & Hbounds
        & Hprev & Hnext & Hbeyond).
  assert (totalPages = 3) as -> by (cbn in Hbounds; lia).
  exists result. repeat split; trivial. now apply Hbeyond.
Defined.

(** **** Claim C7 *)

(** C7.  The claim: over an empty user set, without a search, the result
    has a count of 0, 0 total pages and no items.  The service at that
    input with no page size, as the handler calls it for a request without
    parameters: [limit] becomes the count, 0, and [total_pages] is
    [Math.ceil(0 / 0)], which is [NaN], not 0; the count is 0 and there are
    no items. *)
Theorem C7_empty_store_without_page_size :
  getUsers 1 None None None []
  = Some {| page_number := 1;
            page_size := 0;
            count := 0;
            total_pages := JS.NaN;
            has_previous_page := false;
            has_next_page := false;
            data := [] |}
  /\ UsersController.getUsers None None None None []
     = UsersController.Json200
         {| page_number := 1;
            page_size := 0;
            count := 0;
            total_pages := JS.NaN;
            has_previous_page := false;
            has_next_page := false;
            data := [] |}.
Proof. split; reflexivity. Qed.

(** With a page size of at least 1 the empty user set has 0 total pages. *)
Lemma empty_store_with_page_size page pageSize sort :
  1 <= page -> 1 <= pageSize ->
  getUsers page (Some pageSize) None sort []
  = Some {| page_number := page;
            page_size := pageSize;
            count := 0;
            total_pages := JS.Int 0;
            has_previous_page := 1 <? page;
            has_next_page := false;
            data := [] |}.
Proof.
  intros Hpage Hsize.
  rewrite (getUsers_paged page pageSize None sort [] [] Hpage Hsize eq_refl).
  unfold JS.ceil_div. destruct (Z.eqb_spec pageSize 0) as [|_]; [lia |].
  cbn [length Z.of_nat Z.opp JS.lt_number]. rewrite Z.div_0_l by lia.
  rewrite drop_ge by (rewrite sortStage_length; cbn; lia).
  rewrite take_nil. change (- 0) with 0. cbn [map Z.of_nat].
  destruct (Z.ltb_spec page 0); [lia | reflexivity].
Qed.

(** **** Claim C8 *)

(** C8.  A search spec that does not split into exactly two parts changes
    nothing: the query is the query without a search.  A sort spec that
    does not split into exactly two parts changes nothing: the query is the
    query without a sort.  With both malformed and a page number that is
    absent or at least 1, the handler answers 200 with the result of the
    query without search and sort, over all users.  A search with two parts
    whose field is no string field of a user raises a [TypeError] in the
    filter (when there are users); the service catches it and returns
    [null], and the handler answers NOT_FOUND. *)
Theorem C8_malformed_specs :
  (forall page limit search sort users,
      length (searchParts search) <> 2%nat ->
      getUsers page limit (Some search) sort users
      = getUsers page limit None sort users)
  /\ (forall page limit search sort users,
         length (sortParts sort) <> 2%nat ->
         getUsers page limit search (Some sort) users
         = getUsers page limit search None users)
  /\ (forall page_number page_size search sort users,
         (forall p, page_number = Some p -> 1 <= p) ->
         length (searchParts search) <> 2%nat ->
         length (sortParts sort) <> 2%nat ->
         exists result,
           UsersController.getUsers page_number page_size
             (Some search) (Some sort) users
           = UsersController.Json200 result
           /\ UsersController.getUsers page_number page_size None None users
              = UsersController.Json200 result
           /\ count result = Z.of_nat (length users))
  /\ (forall page_number page_size search sort users field value,
         searchParts search = [field; value] ->
         stringField field = false ->
         (forall page limit,
             users <> [] ->
             getUsers_body page limit (Some search) sort users = Throw TypeError)
         /\ (forall page limit,
                getUsers page limit (Some search) sort users = None)
         /\ UsersController.getUsers page_number page_size (Some search) sort users
            = UsersController.NotFound).
Proof.
  assert (Hsearch : forall page limit search sort users,
             length (searchParts search) <> 2%nat ->
             getUsers page limit (Some search) sort users
             = getUsers page limit None sort users).
  { intros page limit search sort users H. unfold getUsers, getUsers_body.
    now rewrite (searchStage_malformed _ _ H). }
  assert (Hsort : forall page limit search sort users,
             length (sortParts sort) <> 2%nat ->
             getUsers page limit search (Some sort) users
             = getUsers page limit search None users).
  { intros page limit search sort users H. unfold getUsers, getUsers_body.
    destruct (searchStage search users) as [[filtered|]|e]; cbn [bind]; trivial.
    now rewrite (sortStage_malformed _ _ H). }
  split; [exact Hsearch |]. split; [exact Hsort |]. split.
  - intros page_number page_size search sort users Hpage Hse Hso.
    unfold UsersController.getUsers.
    set (page := match page_number with
                 | Some p => if p =? 0 then 1 else p
                 | None => 1
                 end).
    set (limit := match page_size with
                  | Some l => if l =? 0 then None else Some l
                  | None => None
                  end).
    assert (1 <= page).
    { subst page. destruct page_number as [p|]; [|lia].
      specialize (Hpage p eq_refl). destruct (Z.eqb_spec p 0); lia. }
    rewrite (Hsearch _ _ _ _ _ Hse), (Hsort _ _ _ _ _ Hso).
    unfold getUsers. rewrite getUsers_body_no_search.
    destruct (pageStage_page_ge_1 page limit (Z.of_nat (length users))
                (sortStage None users) ltac:(assumption))
      as (result & -> & Hcount & _).
    cbn [bind]. now exists result.
  - intros page_number page_size search sort users field value Hparts Hfield.
    assert (Hnone : filter (fun user => matches field value user = true) users = []).
    { apply filter_matches_unknown. intros user. apply eq_None_not_Some.
      rewrite prop_stringField. congruence. }
    split; [|split].
    + intros page limit Husers.
      rewrite (getUsers_body_search _ _ _ _ _ _ _ Hparts), Hnone, Hfield.
      now destruct users.
    + intros page limit.
      now rewrite (getUsers_search _ _ _ _ _ _ _ Hparts), Hnone.
    + unfold UsersController.getUsers.
      now rewrite (getUsers_search _ _ _ _ _ _ _ Hparts), Hnone.
Qed.

Lemma C8_malformed_specs_witness :
  length (searchParts "name") <> 2%nat
  /\ length (sortParts "name:desc:x") <> 2%nat
  /\ getUsers 1 None (Some "name") (Some "name:desc:x") threeUsers
     = getUsers 1 None None None threeUsers
  /\ searchParts "nickname:Jo" = ["nickname"; "Jo"]
  /\ stringField "nickname" = false
  /\ UsersController.getUsers None None (Some "nickname:Jo") None threeUsers
     = UsersController.NotFound.
Proof.
  assert (H1 : length (searchParts "name") <> 2%nat) by (cbn; lia).
  assert (H2 : length (sortParts "name:desc:x") <> 2%nat) by (cbn; lia).
  split; [exact H1 |]. split; [exact H2 |]. split.
  - rewrite (proj1 C8_malformed_specs _ _ _ _ _ H1).
    exact (proj1 (proj2 C8_malformed_specs) _ _ _ _ _ H2).
  - split; [reflexivity |]. split; [reflexivity |].
    exact (proj2 (proj2 (proj2 (proj2 (proj2 C8_malformed_specs))
                          None None "nickname:Jo" None threeUsers
                          "nickname" "Jo" eq_refl eq_refl))).
Defined.

(** **** Claim C9 *)

(** C9.  Whatever the page, the limit, the search and the sort: every
    element of [data] of a result has exactly the keys [id], [name],
    [balance], [email], [phone] and [account_number], so no [password]
    key, and it is the projection of a user of the store. *)
Theorem C9_projection :
  forall page limit search sort users result item,
    getUsers page limit search sort users = Some result ->
    item ∈ data result ->
    map fst item = summaryKeys
    /\ ("password" ∉ map fst item)
    /\ exists user, user ∈ users /\ item = project user.
Proof.
  intros page limit search sort users result item Hget Hitem.
  assert (Huser : exists user, user ∈ users /\ item = project user).
  { unfold getUsers in Hget.
    destruct (getUsers_body page limit search sort users) as [res|e] eqn:Hbody;
      [subst res | discriminate].
    unfold getUsers_body in Hbody.
    destruct (searchStage search users) as [[filtered|]|e] eqn:Hsearch;
      cbn [bind] in Hbody; try discriminate.
    destruct (pageStage _ _ _ _) as [res|e] eqn:Hpage; cbn [bind] in Hbody;
      [|discriminate].
    injection Hbody as ->.
    destruct (pageStage_projects _ _ _ _ _ Hpage item Hitem) as (user & Hin & ->).
    exists user. split; [|reflexivity].
    apply (searchStage_subset _ _ _ Hsearch).
    now rewrite <- (sortStage_Permutation sort filtered). }
  destruct Huser as (user & Hin & ->).
  split; [reflexivity |]. split; [|now exists user].
  cbn. rewrite !elem_of_cons, elem_of_nil. intros H.
  repeat (destruct H as [H|H]; [discriminate |]). exact H.
Qed.

Lemma C9_projection_witness :
  getUsers 1 (Some 1) (Some "password:$2b") None threeUsers
  = Some {| page_number := 1;
            page_size := 1;
            count := 3;
            total_pages := JS.Int 3;
            has_previous_page := false;
            has_next_page := true;
            data := [ project (sampleUser "John" "john@example.com") ] |}
  /\ map fst (project (sampleUser "John" "john@example.com")) = summaryKeys
  /\ ("password" ∉ map fst (project (sampleUser "John" "john@example.com"))).
Proof.
  assert (H : getUsers 1 (Some 1) (Some "password:$2b") None threeUsers
              = Some {| page_number := 1;
                        page_size := 1;
                        count := 3;
                        total_pages := JS.Int 3;
                        has_previous_page := false;
                        has_next_page := true;
                        data := [ project (sampleUser "John" "john@example.com") ] |})
    by reflexivity.
  split; [exact H |].
  destruct (C9_projection _ _ _ _ _ _ (project (sampleUser "John" "john@example.com"))
              H ltac:(cbn; left))
    as (Hkeys & Hpassword & _).
  split; [exact Hkeys | exact Hpassword].
Defined.

End QueryEngine.

(** *** Examples *)

Section Examples.

Import UsersService.

Example split_two_parts : JS.split ":" "name:Jo" = ["name"; "Jo"].
Proof. reflexivity. Qed.

Example split_empty : JS.split ":" "" = [""].
Proof. reflexivity. Qed.

Example split_three_parts : JS.split ":" "a:b:c" = ["a"; "b"; "c"].
Proof. reflexivity. Qed.

Example sortParts_trims_and_lowers :
  sortParts " Name : DESC " = ["name"; "desc"].
Proof. reflexivity. Qed.

Example includes_is_case_sensitive :
  JS.includes "John" "Jo" = true /\ JS.includes "John" "jo" = false.
Proof. split; reflexivity. Qed.

Example sort_name_desc :
  map name
    (sortStage (Some "name:desc")
       [sampleUser "Bob" "bob@example.com"; sampleUser "Alice" "alice@example.com"])
  = ["Bob"; "Alice"].
Proof. reflexivity. Qed.

Example sort_unknown_field_uses_email :
  map name (sortStage (Some "phone:asc") threeUsers) = ["Bob"; "Joan"; "John"].
Proof. reflexivity. Qed.

Example sort_keeps_ties_in_order :
  map email
    (sortStage (Some "name:")
       [ sampleUser "bob" "second@example.com";
         sampleUser "Alice" "third@example.com";
         sampleUser "BOB" "first@example.com" ])
  = ["third@example.com"; "second@example.com"; "first@example.com"].
Proof. reflexivity. Qed.

Example sort_without_colon_is_ignored :
  map name (sortStage (Some "name") threeUsers) = ["John"; "Bob"; "Joan"].
Proof. reflexivity. Qed.

Example page_3_of_5 :
  getUsers 3 (Some 2) None None fiveUsers
  = Some {| page_number := 3;
            page_size := 2;
            count := 5;
            total_pages := JS.Int 3;
            has_previous_page := true;
            has_next_page := false;
            data := [ project (sampleUser "Carol" "carol@example.com") ] |}.
Proof. reflexivity. Qed.

Example page_2_of_3_by_1 :
  (fun result => (length (data result), has_previous_page result,
                  has_next_page result))
    <$> getUsers 2 (Some 1) None None threeUsers
  = Some (1%nat, true, true).
Proof. reflexivity. Qed.

Example no_parameters_one_page :
  (fun result => (map (fun item => item !! 1%nat) (data result),
                  total_pages result, has_previous_page result))
    <$> getUsers 1 None None None threeUsers
  = Some ([Some ("name", "John"); Some ("name", "Bob"); Some ("name", "Joan")],
          JS.Int 1, false).
Proof. reflexivity. Qed.

Example negative_page_is_not_found :
  UsersController.getUsers (Some (-1)) (Some 2) None None threeUsers
  = UsersController.NotFound.
Proof. reflexivity. Qed.

(** The entry starts at 1 and the first failure makes it 2: the sixth
    attempt, after five failures, is the first one rejected. *)
Example five_failures_lock :
  let check := fun _ _ => AuthenticationController.Denied in
  let attempt now loginAttempts :=
    (AuthenticationController.login check "user@example.com" "guess"
       now (now + 1) loginAttempts).2 in
  (AuthenticationController.login check "user@example.com" "guess" 6000 6001
     (attempt 5000 (attempt 4000 (attempt 3000 (attempt 2000 (attempt 1000 ∅)))))).1
  = AuthenticationController.TooManyAttempts 1800.
Proof. reflexivity. Qed.

End Examples.

(** *** More on the login throttle *)

Section ThrottleRuns.

Import AuthenticationController.

Implicit Types (loginAttempts : gmap string attempt) (email password : string).
Implicit Types (check : string -> string -> credentials) (now later : Z).
Implicit Types (q : loginRequest) (requests : list loginRequest).

Lemma login_other check email password now later loginAttempts other :
  other <> email ->
  (login check email password now later loginAttempts).2 !! other
  = loginAttempts !! other.
Proof.
  intros Hne. destruct (loginAttempts !! email) as [r|] eqn:H.
  - rewrite (login_known _ _ _ _ _ _ _ H).
    destruct (5 <? count r); [reflexivity |].
    destruct (check email password); cbn; trivial.
    + now apply lookup_delete_ne.
    + now apply lookup_insert_ne.
  - rewrite (login_unknown _ _ _ _ _ _ H).
    destruct (check email password); cbn; trivial; now apply lookup_insert_ne.
Qed.

(** X1.  A login request for [email] touches the entry of [email] only:
    the entry of every other identity, present or not, is after the request
    what it was before, whatever the outcome. *)
Theorem X1_login_touches_one_identity :
  forall check email password now later loginAttempts other,
    other <> email ->
    (login check email password now later loginAttempts).2 !! other
    = loginAttempts !! other.
Proof. intros. now apply login_other. Qed.

Lemma X1_login_touches_one_identity_witness :
  "other@example.com" <> "user@example.com"
  /\ (login (fun _ _ => Denied) "user@example.com" "guess" 10 20
        {[ "other@example.com" := {| count := 3; timestamp := 5 |} ]}).2
       !! "other@example.com"
     = Some {| count := 3; timestamp := 5 |}.
Proof.
  assert (H : "other@example.com" <> "user@example.com") by discriminate.
  split; [exact H |].
  rewrite (X1_login_touches_one_identity _ _ _ _ _ _ _ H).
  reflexivity.
Defined.

Lemma logins_cons q requests loginAttempts :
  logins (q :: requests) loginAttempts
  = ((handle q loginAttempts).1
       :: (logins requests (handle q loginAttempts).2).1,
     (logins requests (handle q loginAttempts).2).2).
Proof.
  cbn [logins]. destruct (handle q loginAttempts) as [o la']. cbn [fst snd].
  now destruct (logins requests la').
Qed.

(** Once the count is above 5, no run of requests changes the entry. *)
Lemma logins_locked requests loginAttempts email r :
  loginAttempts !! email = Some r -> 5 < count r ->
  (logins requests loginAttempts).2 !! email = Some r
  /\ forall i q,
       requests !! i = Some q -> req_email q = email ->
       (logins requests loginAttempts).1 !! i
       = Some (TooManyAttempts (remaining r (req_now q))).
Proof.
  revert loginAttempts.
  induction requests as [|q requests IH]; intros la Hr Hcount.
  - split; [exact Hr | intros i q' [=]].
  - rewrite logins_cons. cbn [fst snd].
    assert (Hkeep : (handle q la).2 !! email = Some r
                    /\ (req_email q = email ->
                        (handle q la).1 = TooManyAttempts (remaining r (req_now q)))).
    { unfold handle. destruct (decide (req_email q = email)) as [Heq|Hne].
      - rewrite Heq. rewrite (login_known _ _ _ _ _ _ _ Hr).
        destruct (Z.ltb_spec 5 (count r)); [|lia]. now split.
      - split; [|contradiction]. rewrite login_other by congruence. exact Hr. }
    destruct Hkeep as [Hkeep Hout].
    destruct (IH _ Hkeep Hcount) as [IH1 IH2].
    split; [exact IH1 |].
    intros [|i] q' Hq' Hemail; cbn in Hq' |- *.
    + injection Hq' as <-. f_equal. now apply Hout.
    + now apply IH2.
Qed.



(** Failed attempts on an entry below the threshold: each adds one. *)
Lemma logins_denied_known requests loginAttempts email r :
  loginAttempts !! email = Some r ->
  count r + Z.of_nat (length requests) <= 6 ->
  Forall (fun q => req_email q = email /\ req_answer q = Denied) requests ->
  (logins requests loginAttempts).1
  = replicate (length requests) WrongCredentials
  /\ exists r',
       (logins requests loginAttempts).2 !! email = Some r'
       /\ count r' = count r + Z.of_nat (length requests)
       /\ timestamp r' = from_option req_later (timestamp r) (last requests).
Proof.
  revert loginAttempts r.
  induction requests as [|q requests IH]; intros la r Hr Hcount Hall.
  - split; [reflexivity |]. exists r. cbn. split; [exact Hr |]. split; [lia | reflexivity].
  - apply Forall_cons in Hall as [[Hemail Hanswer] Hall].
    rewrite logins_cons. cbn [fst snd length] in *.
    assert (Hstep : handle q la
                    = (WrongCredentials,
                       <[email := {| count := count r + 1;
                                     timestamp := req_later q |}]> la)).
    { unfold handle. rewrite Hemail, (login_known _ _ _ _ _ _ _ Hr), Hanswer.
      destruct (Z.ltb_spec 5 (count r)); [lia | reflexivity]. }
    rewrite Hstep. cbn [fst snd].
    destruct (IH (<[email := {| count := count r + 1; timestamp := req_later q |}]> la)
                {| count := count r + 1; timestamp := req_later q |})
      as (Hout & r' & Hr' & Hc' & Ht'); [apply lookup_insert_eq | cbn; lia | exact Hall |].
    split; [cbn; now rewrite Hout |].
    exists r'. split; [exact Hr' |]. cbn in Hc', Ht'. split; [lia |].
    rewrite Ht'. destruct requests as [|q' requests]; [reflexivity |].
    change (last (q :: q' :: requests)) with (last (q' :: requests)).
    destruct (last (q' :: requests)) eqn:E; [reflexivity |].
    apply last_None in E. discriminate.
Qed.



(** X4.  Whether a request is rejected with "too many attempts" depends on
    the stored count alone: it is rejected exactly when the identity has an
    entry with a count above 5.  The clock readings, the password and the
    answer of the credential check play no part, and a rejected request
    gets the same answer and leaves the same [loginAttempts] whatever the
    credential check would have said. *)
Theorem X4_rejection_depends_on_count_only :
  forall check email password now later loginAttempts,
    ((exists remainingTime,
         (login check email password now later loginAttempts).1
         = TooManyAttempts remainingTime)
     <-> exists r, loginAttempts !! email = Some r /\ 5 < count r)
    /\ forall r check' password' later',
         loginAttempts !! email = Some r -> 5 < count r ->
         login check' email password' now later' loginAttempts
         = login check email password now later loginAttempts.
Proof.
  intros check email password now later la. split.
  - apply login_rejects_iff.
  - intros r check' password' later' Hr Hcount.
    rewrite !(login_known _ _ _ _ _ _ _ Hr).
    now destruct (Z.ltb_spec 5 (count r)); [|lia].
Qed.

Lemma X4_rejection_depends_on_count_only_witness :
  lockedOut !! "user@example.com" = Some {| count := 6; timestamp := 0 |}
  /\ 5 < 6
  /\ login (fun _ _ => Granted "token") "user@example.com" "right" 7000 9000
       lockedOut
     = login (fun _ _ => Denied) "user@example.com" "wrong" 7000 8000 lockedOut.
Proof.
  split; [reflexivity |]. split; [lia |].
  refine (proj2 (X4_rejection_depends_on_count_only (fun _ _ => Denied)
                   "user@example.com" "wrong" 7000 8000 lockedOut)
            {| count := 6; timestamp := 0 |} (fun _ _ => Granted "token")
            "right" 9000 eq_refl _).
  cbn. lia.
Defined.

(** X5.  A credential check that throws is not counted as a failure: the
    error goes to [next], the count of an existing entry stays, and for an
    identity without an entry the fresh entry with count 1 and the first
    clock reading stays behind.  No other request ends with that error:
    the outcome is the error exactly when the entry's count, if any, is at
    most 5 and the check throws. *)
Theorem X5_throwing_check_is_not_counted :
  forall check email password now later loginAttempts,
    ((login check email password now later loginAttempts).1 = OtherError
     <-> check email password = Rejected
         /\ forall r, loginAttempts !! email = Some r -> count r <= 5)
    /\ (check email password = Rejected ->
        (login check email password now later loginAttempts).2
        = match loginAttempts !! email with
          | Some _ => loginAttempts
          | None => <[email := {| count := 1; timestamp := now |}]> loginAttempts
          end).
Proof.
  intros check email password now later la.
  destruct (la !! email) as [r|] eqn:H.
  - rewrite (login_known _ _ _ _ _ _ _ H). split.
    + destruct (Z.ltb_spec 5 (count r)) as [Hgt|Hle]; cbn.
      * split; [discriminate |]. intros [_ Hr]. specialize (Hr r eq_refl). lia.
      * destruct (check email password); cbn; split;
          try discriminate; try (intros [[=] _]); try reflexivity.
        intros _. split; [reflexivity |]. now intros r' [= <-].
    + intros ->. now destruct (5 <? count r).
  - rewrite (login_unknown _ _ _ _ _ _ H). split.
    + destruct (check email password); cbn; split;
        try discriminate; try (intros [[=] _]); try reflexivity.
      intros _. split; [reflexivity | intros r [=]].
    + now intros ->.
Qed.

Lemma X5_throwing_check_is_not_counted_witness :
  (login (fun _ _ => Rejected) "new@example.com" "secret" 10 20 ∅).2
  = {[ "new@example.com" := {| count := 1; timestamp := 10 |} ]}.
Proof.
  exact (proj2 (X5_throwing_check_is_not_counted (fun _ _ => Rejected)
                  "new@example.com" "secret" 10 20 ∅) eq_refl).
Defined.

End ThrottleRuns.

(** *** More on the stable sort *)

Section StableSortLaws.

Context {A : Type} (cmp : A -> A -> Z).

Hypothesis cmp_total : forall x y, before cmp x y \/ before cmp y x.
Hypothesis cmp_trans :
  forall x y z, before cmp x y -> before cmp y z -> before cmp x z.

Lemma StronglySorted_filter (R : A -> A -> Prop) (P : A -> Prop)
    `{!forall x, Decision (P x)} (l : list A) :
  StronglySorted R l -> StronglySorted R (filter P l).
Proof.
  induction 1 as [|x l Hl IH Hx]; [constructor |].
  rewrite filter_cons. destruct (decide (P x)); [|exact IH].
  constructor; [exact IH |].
  rewrite Forall_forall in *. intros y Hy.
  apply list_elem_of_filter in Hy as [_ Hy]. now apply Hx.
Qed.

(** Sorting what is sorted changes nothing. *)
Lemma sort_sorted_id (l : list A) :
  StronglySorted (before cmp) l -> JS.sort cmp l = l.
Proof.
  intros Hl. symmetry.
  apply (sort_unique cmp cmp_total cmp_trans l l); [exact Hl | reflexivity].
Qed.

(** Filtering commutes with the stable sort. *)
Lemma sort_filter (P : A -> Prop) `{!forall x, Decision (P x)} (l : list A) :
  JS.sort cmp (filter P l) = filter P (JS.sort cmp l).
Proof.
  symmetry. apply (sort_unique cmp cmp_total cmp_trans).
  - apply StronglySorted_filter, (sort_sorted cmp cmp_total cmp_trans).
  - intros z. rewrite !list_filter_filter.
    apply (filter_sort cmp). intros x y [[_ Hxz] _] [[Hzy _] _].
    now apply (cmp_trans x z y).
Qed.

End StableSortLaws.

Lemma StronglySorted_snoc {A : Type} (R : A -> A -> Prop) (l : list A) (x : A) :
  StronglySorted R l -> Forall (fun y => R y x) l -> StronglySorted R (l ++ [x]).
Proof.
  induction 1 as [|y l Hl IH Hy]; intros Hall; cbn.
  - repeat constructor.
  - apply Forall_cons in Hall as [Hyx Hall].
    constructor; [now apply IH |].
    apply Forall_app. split; [exact Hy | now constructor].
Qed.

Lemma StronglySorted_reverse {A : Type} (R : A -> A -> Prop) (l : list A) :
  StronglySorted R l -> StronglySorted (fun x y => R y x) (reverse l).
Proof.
  induction 1 as [|x l Hl IH Hx]; [constructor |].
  rewrite reverse_cons. apply StronglySorted_snoc; [exact IH |].
  rewrite Forall_forall in *. intros y Hy. apply Hx.
  exact (proj1 (elem_of_reverse y l) Hy).
Qed.

(** Cutting a list into [k] chunks of [n] elements and gluing them. *)
Lemma concat_chunks {A : Type} (n k : nat) (l : list A) :
  (length l <= k * n)%nat ->
  concat (map (fun i => take n (drop (i * n) l)) (seq 0 k)) = l.
Proof.
  revert l. induction k as [|k IH]; intros l Hlen.
  - destruct l; [reflexivity | cbn in Hlen; lia].
  - cbn [seq map concat]. rewrite <- seq_shift, map_map.
    rewrite (map_ext _ (fun i => take n (drop (i * n) (drop n l)))).
    + rewrite IH by (rewrite length_drop; lia). cbn [Nat.mul drop].
      apply take_drop.
    + intros i. now rewrite drop_drop.
Qed.

Lemma filter_key_absent {A K : Type} `{EqDecision K} (key : A -> K) (k : K)
    (l : list A) :
  k ∉ map key l -> filter (fun x => key x = k) l = [].
Proof.
  induction l as [|x l IH]; [reflexivity |]. cbn [map].
  intros Hk. apply not_elem_of_cons in Hk as [Hne Hk].
  rewrite filter_cons_False by congruence. now apply IH.
Qed.

(** With pairwise different keys at most one element has a given key. *)
Lemma filter_key_NoDup {A K : Type} `{EqDecision K} (key : A -> K) (k : K)
    (l : list A) :
  NoDup (map key l) -> (length (filter (fun x => key x = k) l) <= 1)%nat.
Proof.
  induction l as [|x l IH]; cbn [map]; [cbn; lia |].
  intros Hnd. apply NoDup_cons in Hnd as [Hx Hnd].
  rewrite filter_cons. destruct (decide (key x = k)) as [<-|]; [|now apply IH].
  rewrite (filter_key_absent key (key x) l Hx). cbn. lia.
Qed.

(** *** More on the user query engine *)

Section QueryEngineLaws.

Import UsersService.

Implicit Types (user a b : User) (users filteredUsers store : list User).
Implicit Types (field value order : string) (page : Z).

Lemma filter_all {A : Type} (P : A -> Prop) `{!forall x, Decision (P x)}
    (l : list A) :
  (forall x, x ∈ l -> P x) -> filter P l = l.
Proof.
  induction l as [|x l IH]; intros HP; [reflexivity |].
  rewrite filter_cons_True by (apply HP; left).
  f_equal. apply IH. intros y Hy. apply HP. now right.
Qed.

(** The sort stage either leaves every list as it is or sorts every list
    with one comparator of [compareUsers]. *)
Lemma sortStage_cases sort :
  (forall users, sortStage sort users = users)
  \/ exists field order,
       forall users,
         sortStage sort users
         = JS.sort (compareUsers (sortByOf field) (sortOrderOf order)) users.
Proof.
  destruct sort as [[|c sort]|]; try (left; reflexivity).
  destruct (sortParts (String c sort)) as [|field [|order [|? ?]]] eqn:Hparts;
    try (left; intros; apply sortStage_malformed; rewrite Hparts; cbn; lia).
  right. exists field, order. intros. now apply sortStage_wellformed.
Qed.

Lemma sortStage_filter sort (P : User -> Prop) `{!forall x, Decision (P x)} users :
  sortStage sort (filter P users) = filter P (sortStage sort users).
Proof.
  destruct (sortStage_cases sort) as [Hid|(field & order & Hsort)].
  - now rewrite !Hid.
  - rewrite !Hsort. apply sort_filter.
    + intros. apply compareUsers_total.
    + intros ? ? ?. apply compareUsers_trans.
Qed.

Lemma getUsers_presorted page limit sort users :
  getUsers page limit None sort users
  = getUsers page limit None None (sortStage sort users).
Proof.
  unfold getUsers. rewrite !getUsers_body_no_search.
  now rewrite sortStage_length.
Qed.

Lemma pageStage_unlimited filteredUsers :
  pageStage 1 None (Z.of_nat (length filteredUsers)) filteredUsers
  = Ret {| page_number := 1;
           page_size := Z.of_nat (length filteredUsers);
           count := Z.of_nat (length filteredUsers);
           total_pages := JS.ceil_div (Z.of_nat (length filteredUsers))
                            (Z.of_nat (length filteredUsers));
           has_previous_page := false;
           has_next_page :=
             JS.lt_number 1
               (JS.ceil_div (Z.of_nat (length filteredUsers))
                  (Z.of_nat (length filteredUsers)));
           data := map project filteredUsers |}.
Proof.
  unfold pageStage. cbn [effectiveLimit].
  rewrite pageLoop_slice by lia. cbn [bind app].
  rewrite Z.mul_0_l, drop_0, take_ge by lia. reflexivity.
Qed.

Lemma ceil_div_self (n : Z) : 1 <= n -> JS.ceil_div n n = JS.Int 1.
Proof.
  intros Hn. unfold JS.ceil_div. destruct (Z.eqb_spec n 0); [lia |].
  rewrite Z.div_opp_l_z by (lia || apply Z.mod_same; lia).
  now rewrite Z.div_same by lia.
Qed.

(** **** Extra X6 *)

(** X6.  A listing request without page size, search and sort, with no
    page number or page number 0 or 1, over a store that is not empty: the
    answer is 200 with all users of the store, projected, in the order of
    the store, as the single page 1; the page size and the count are the
    number of users, there is no previous and no next page. *)
Theorem X6_default_listing :
  forall page_number store,
    store <> [] ->
    page_number = None \/ page_number = Some 0 \/ page_number = Some 1 ->
    UsersController.getUsers page_number None None None store
    = UsersController.Json200
        {| page_number := 1;
           page_size := Z.of_nat (length store);
           count := Z.of_nat (length store);
           total_pages := JS.Int 1;
           has_previous_page := false;
           has_next_page := false;
           data := map project store |}.
Proof.
  intros page_number store Hstore Hpage.
  assert (Hget : getUsers 1 None None None store
                 = Some {| page_number := 1;
                           page_size := Z.of_nat (length store);
                           count := Z.of_nat (length store);
                           total_pages := JS.Int 1;
                           has_previous_page := false;
                           has_next_page := false;
                           data := map project store |}).
  { unfold getUsers. rewrite getUsers_body_no_search. cbn [sortStage].
    rewrite pageStage_unlimited, ceil_div_self by (destruct store; cbn; [congruence | lia]).
    reflexivity. }
  unfold UsersController.getUsers.
  destruct Hpage as [->|[->| ->]]; cbn [Z.eqb]; now rewrite Hget.
Qed.

Lemma X6_default_listing_witness :
  threeUsers <> []
  /\ UsersController.getUsers (Some 0) None None None threeUsers
     = UsersController.Json200
         {| page_number := 1;
            page_size := 3;
            count := 3;
            total_pages := JS.Int 1;
            has_previous_page := false;
            has_next_page := false;
            data := map project threeUsers |}.
Proof.
  assert (H : threeUsers <> []) by discriminate.
  split; [exact H |].
  exact (X6_default_listing (Some 0) threeUsers H (or_intror (or_introl eq_refl))).
Defined.

(** **** Extra X7 *)

(** X7.  The pages cover the result exactly once.  For a page size of at
    least 1, the total number of pages is the same on every page from 1
    on, and the items of the pages 1, 2, ..., [total_pages] one after the
    other are the projections of all filtered users in sorted order: no
    user is skipped and none is listed twice. *)
Theorem X7_pages_partition :
  forall pageSize search sort users filteredUsers,
    1 <= pageSize ->
    searchStage search users = Ret (Some filteredUsers) ->
    exists totalPages : nat,
      (forall page,
          1 <= page ->
          total_pages <$> getUsers page (Some pageSize) search sort users
          = Some (JS.Int (Z.of_nat totalPages)))
      /\ concat
           (map
              (fun page : nat =>
                 from_option data []
                   (getUsers (Z.of_nat page) (Some pageSize) search sort users))
              (seq 1 totalPages))
         = map project (sortStage sort filteredUsers).
Proof.
  intros pageSize search sort users filtered Hsize Hsearch.
  destruct (ceil_div_positive (Z.of_nat (length filtered)) pageSize Hsize)
    as (totalPages & Hceil & Hbounds).
  assert (0 <= totalPages) by nia.
  exists (Z.to_nat totalPages). split.
  - intros page Hpage.
    rewrite (getUsers_paged _ _ _ _ _ _ Hpage Hsize Hsearch). cbn.
    rewrite Hceil. do 2 f_equal. lia.
  - rewrite <- seq_shift, map_map.
    rewrite (map_ext _
               (fun i => map project
                           (take (Z.to_nat pageSize)
                              (drop (i * Z.to_nat pageSize)
                                 (sortStage sort filtered))))).
    + rewrite <- (map_map (fun i => take (Z.to_nat pageSize)
                                      (drop (i * Z.to_nat pageSize)
                                         (sortStage sort filtered)))
                    (map project)).
      rewrite <- concat_map. f_equal. apply concat_chunks.
      rewrite sortStage_length. nia.
    + intros i.
      rewrite (getUsers_paged (Z.of_nat (S i)) pageSize _ _ _ _
                 ltac:(lia) Hsize Hsearch).
      cbn [from_option data]. do 3 f_equal. nia.
Qed.

Lemma X7_pages_partition_witness :
  1 <= 2
  /\ searchStage None fiveUsers = Ret (Some fiveUsers)
  /\ exists totalPages : nat,
       concat
         (map
            (fun page : nat =>
               from_option data []
                 (getUsers (Z.of_nat page) (Some 2) None None fiveUsers))
            (seq 1 totalPages))
       = map project fiveUsers.
Proof.
  split; [lia |]. split; [reflexivity |].
  destruct (X7_pages_partition 2 None None fiveUsers fiveUsers ltac:(lia) eq_refl)
    as (totalPages & _ & Hconcat).
  exists totalPages. exact Hconcat.
Defined.

(** **** Extra X8 *)

(** X8.  For a page number and a page size of at least 1, the number of
    items on the page is the page size, or what is left of the filtered
    users from index [(page - 1) * pageSize] on when that is less, and 0
    when nothing is left. *)
Theorem X8_items_on_a_page :
  forall page pageSize search sort users filteredUsers,
    1 <= page -> 1 <= pageSize ->
    searchStage search users = Ret (Some filteredUsers) ->
    exists result,
      getUsers page (Some pageSize) search sort users = Some result
      /\ Z.of_nat (length (data result))
         = Z.min pageSize
             (Z.max 0 (Z.of_nat (length filteredUsers) - (page - 1) * pageSize)).
Proof.
  intros page pageSize search sort users filtered Hpage Hsize Hsearch.
  eexists. split; [apply getUsers_paged; eassumption |].
  cbn [data]. rewrite length_map, length_take, length_drop, sortStage_length.
  nia.
Qed.

Lemma X8_items_on_a_page_witness :
  1 <= 3 /\ 1 <= 2
  /\ searchStage None fiveUsers = Ret (Some fiveUsers)
  /\ exists result,
       getUsers 3 (Some 2) None None fiveUsers = Some result
       /\ Z.of_nat (length (data result)) = 1.
Proof.
  split; [lia |]. split; [lia |]. split; [reflexivity |].
  exact (X8_items_on_a_page 3 2 None None fiveUsers fiveUsers
           ltac:(lia) ltac:(lia) eq_refl).
Defined.

(** **** Extra X9 *)



(** **** Extra X10 *)

(** X10.  A negative page size is taken as it is: from page 1 on the
    result has no items, reports the negative page size and the full
    count, a total number of pages that is 0 or negative, and no next
    page. *)
Theorem X10_negative_page_size :
  forall page pageSize search sort users filteredUsers,
    1 <= page -> pageSize <= -1 ->
    searchStage search users = Ret (Some filteredUsers) ->
    exists result totalPages,
      getUsers page (Some pageSize) search sort users = Some result
      /\ data result = []
      /\ page_size result = pageSize
      /\ count result = Z.of_nat (length filteredUsers)
      /\ total_pages result = JS.Int totalPages
      /\ totalPages <= 0
      /\ has_next_page result = false.
Proof.
  intros page pageSize search sort users filtered Hpage Hsize Hsearch.
  set (n := Z.of_nat (length filtered)).
  set (totalPages := - (- n / pageSize)).
  assert (HtotalPages : totalPages <= 0).
  { subst totalPages. assert (0 <= - n / pageSize); [|lia].
    pose proof (Z.div_mod (- n) pageSize ltac:(lia)).
    pose proof (Z.mod_neg_bound (- n) pageSize ltac:(lia)).
    subst n. nia. }
  assert (Hloop :
    pageLoop (S (length (sortStage sort filtered))) (sortStage sort filtered)
      ((page - 1) * pageSize) (page * pageSize) [] = Ret []).
  { destruct (Z.eq_dec page 1) as [->|Hne].
    - rewrite pageLoop_slice by (cbn; lia). cbn [app].
      replace (Z.to_nat (1 * pageSize - (1 - 1) * pageSize)) with 0%nat by lia.
      now rewrite take_0.
    - rewrite pageLoop_negative by nia.
      destruct (Z.ltb_spec ((page - 1) * pageSize) (page * pageSize)); [lia |].
      reflexivity. }
  exists {| page_number := page;
            page_size := pageSize;
            count := n;
            total_pages := JS.Int totalPages;
            has_previous_page := 1 <? page;
            has_next_page := page <? totalPages;
            data := [] |}, totalPages.
  split.
  - unfold getUsers, getUsers_body. rewrite Hsearch. cbn [bind].
    unfold pageStage, effectiveLimit.
    destruct (Z.eqb_spec pageSize 0) as [|_]; [lia |].
    rewrite Hloop. cbn [bind]. unfold JS.ceil_div.
    destruct (Z.eqb_spec pageSize 0) as [|_]; [lia |]. reflexivity.
  - cbn. repeat split; trivial. apply Z.ltb_ge. lia.
Qed.

Lemma X10_negative_page_size_witness :
  1 <= 1 /\ -2 <= -1
  /\ searchStage None threeUsers = Ret (Some threeUsers)
  /\ exists result totalPages,
       getUsers 1 (Some (-2)) None None threeUsers = Some result
       /\ data result = []
       /\ page_size result = -2
       /\ count result = 3
       /\ total_pages result = JS.Int totalPages
       /\ totalPages <= 0
       /\ has_next_page result = false.
Proof.
  split; [lia |]. split; [lia |]. split; [reflexivity |].
  exact (X10_negative_page_size 1 (-2) None None threeUsers threeUsers
           ltac:(lia) ltac:(lia) eq_refl).
Defined.

(** **** Extra X11 *)

(** X11.  Sorting is idempotent: the sort stage applied to its own result,
    with the same sort spec, returns that result. *)
Theorem X11_sort_is_idempotent :
  forall sort users,
    sortStage sort (sortStage sort users) = sortStage sort users.
Proof.
  intros sort users.
  destruct (sortStage_cases sort) as [Hid|(field & order & Hsort)].
  - now rewrite !Hid.
  - rewrite !Hsort. apply sort_sorted_id.
    + intros. apply compareUsers_total.
    + intros ? ? ?. apply compareUsers_trans.
    + apply sort_sorted.
      * intros. apply compareUsers_total.
      * intros ? ? ?. apply compareUsers_trans.
Qed.

(** **** Extra X12 *)

(** X12.  Search and sort commute.  For a search spec with two parts, the
    query with search and sort over the store is the query with the search
    alone over the store sorted beforehand: the matching users come out in
    the order they have in the sorted store. *)
Theorem X12_search_and_sort_commute :
  forall page limit search sort users field value,
    searchParts search = [field; value] ->
    getUsers page limit (Some search) sort users
    = getUsers page limit (Some search) None (sortStage sort users).
Proof.
  intros page limit search sort users field value Hparts.
  rewrite !(getUsers_search _ _ _ _ _ _ _ Hparts).
  rewrite <- sortStage_filter.
  destruct (filter _ users) as [|k kept] eqn:Hkept.
  - assert (Hnil : sortStage sort [] = [])
      by (apply length_zero_iff_nil; now rewrite sortStage_length).
    now rewrite Hnil.
  - destruct (sortStage sort (k :: kept)) as [|k' kept'] eqn:Hsorted.
    + apply (f_equal length) in Hsorted. rewrite sortStage_length in Hsorted.
      discriminate.
    + rewrite <- Hsorted. apply getUsers_presorted.
Qed.

Lemma X12_search_and_sort_commute_witness :
  searchParts "name:Jo" = ["name"; "Jo"]
  /\ getUsers 1 None (Some "name:Jo") (Some "name:asc") threeUsers
     = getUsers 1 None (Some "name:Jo") None
         (sortStage (Some "name:asc") threeUsers).
Proof.
  split; [reflexivity |].
  exact (X12_search_and_sort_commute 1 None "name:Jo" (Some "name:asc")
           threeUsers "name" "Jo" eq_refl).
Defined.

(** **** Extra X13 *)

(** X13.  When no two users have the same sort key, the descending order
    is the ascending order reversed.  (With equal keys it is not: tied
    users keep their store order in both directions.) *)
Theorem X13_descending_is_reversed_ascending :
  forall sortDesc sortAsc field order users,
    sortParts sortDesc = [field; "desc"] ->
    sortParts sortAsc = [field; order] ->
    order <> "desc" ->
    NoDup (map (sortKey field) users) ->
    sortStage (Some sortDesc) users = reverse (sortStage (Some sortAsc) users).
Proof.
  intros sortDesc sortAsc field order users Hdesc Hasc Horder Hkeys.
  rewrite (sortStage_wellformed _ _ _ _ Hdesc), (sortStage_wellformed _ _ _ _ Hasc).
  set (asc := compareUsers (sortByOf field) (sortOrderOf order)).
  assert (Hstable : forall key,
             filter (fun user => sortKey field user = key) (JS.sort asc users)
             = filter (fun user => sortKey field user = key) users).
  { intros key. apply filter_sort. intros a b Ha Hb.
    apply (proj1 (proj2 (tied_sortKey field order a b) (eq_trans Ha (eq_sym Hb)))). }
  symmetry. apply sort_unique.
  - intros. apply compareUsers_total.
  - intros ? ? ?. apply compareUsers_trans.
  - eapply StronglySorted_weaken;
      [|apply StronglySorted_reverse, (sort_sorted asc);
        [intros; apply compareUsers_total
        |intros ? ? ?; apply compareUsers_trans]].
    intros a b Hba. cbv beta in Hba. apply before_order in Hba.
    apply before_order. rewrite decide_False in Hba by exact Horder.
    now rewrite decide_True.
  - intros z.
    rewrite !(list_filter_iff (tied _ z) (fun user => sortKey field user = sortKey field z))
      by (intros a; rewrite tied_sortKey; split; congruence).
    rewrite filter_reverse, Hstable.
    pose proof (filter_key_NoDup (sortKey field) (sortKey field z) users Hkeys) as Hlen.
    destruct (filter _ users) as [|a [|b rest]]; cbn in Hlen; trivial. lia.
Qed.

Lemma X13_descending_is_reversed_ascending_witness :
  sortParts "name:desc" = ["name"; "desc"]
  /\ sortParts "name:asc" = ["name"; "asc"]
  /\ "asc" <> "desc"
  /\ NoDup (map (sortKey "name") threeUsers)
  /\ sortStage (Some "name:desc") threeUsers
     = reverse (sortStage (Some "name:asc") threeUsers).
Proof.
  assert (H1 : "asc" <> "desc") by discriminate.
  assert (H2 : NoDup (map (sortKey "name") threeUsers)).
  { cbn. repeat (apply NoDup_cons; split;
                 [rewrite ?elem_of_cons, elem_of_nil; intros H;
                  repeat (destruct H as [H|H]; [discriminate |]); exact H |]).
    apply NoDup_nil_2. }
  split; [reflexivity |]. split; [reflexivity |]. split; [exact H1 |].
  split; [exact H2 |].
  exact (X13_descending_is_reversed_ascending "name:desc" "name:asc" "name" "asc"
           threeUsers eq_refl eq_refl H1 H2).
Defined.

(** **** Extra X14 *)

(** X14.  A search with an empty value on a string field of the users
    matches everything: over a store that is not empty the query is the
    query without a search. *)
Theorem X14_empty_search_value_matches_all :
  forall page limit search sort users field,
    searchParts search = [field; ""] ->
    stringField field = true ->
    users <> [] ->
    getUsers page limit (Some search) sort users
    = getUsers page limit None sort users.
Proof.
  intros page limit search sort users field Hparts Hfield Husers.
  rewrite (getUsers_search _ _ _ _ _ _ _ Hparts).
  rewrite filter_all; [now destruct users |].
  intros user _. unfold matches.
  destruct (proj2 (prop_stringField user field) Hfield) as [stored ->].
  now destruct stored.
Qed.

Lemma X14_empty_search_value_matches_all_witness :
  searchParts "email: " = ["email"; ""]
  /\ stringField "email" = true
  /\ threeUsers <> []
  /\ getUsers 1 None (Some "email: ") None threeUsers
     = getUsers 1 None None None threeUsers.
Proof.
  assert (H : threeUsers <> []) by discriminate.
  split; [reflexivity |]. split; [reflexivity |]. split; [exact H |].
  exact (X14_empty_search_value_matches_all 1 None "email: " None threeUsers
           "email" eq_refl eq_refl H).
Defined.

(** **** Extra X15 *)

(** X15.  A search or sort spec has exactly two parts exactly when it
    holds exactly one colon; in general the number of parts is the number
    of colons plus 1.  So [a:b:c] and a spec without a colon are both
    ignored. *)
Theorem X15_two_parts_is_one_colon :
  forall spec,
    let colons :=
      length (filter (fun c => c = ":"%char) (String.list_ascii_of_string spec)) in
    length (searchParts spec) = S colons
    /\ length (sortParts spec) = S colons
    /\ (length (searchParts spec) = 2%nat <-> colons = 1%nat)
    /\ (length (sortParts spec) = 2%nat <-> colons = 1%nat).
Proof.
  intros spec colons. unfold searchParts, sortParts.
  rewrite !length_map, split_length. fold colons. lia.
Qed.

End QueryEngineLaws.

(** *** The rest of the users component *)

Ltac async_unfold :=
  unfold UsersControllerRest.handler, UsersServiceRest.getUser,
    UsersServiceRest.createUser, UsersServiceRest.updateUser,
    UsersServiceRest.updateBalance, UsersServiceRest.deleteUser,
    UsersServiceRest.emailIsRegistered, UsersServiceRest.getUAN,
    UsersServiceRest.checkPassword, UsersServiceRest.changePassword,
    await, tryCatch, query, command, resolve, throw in *.

(** The answer is no 200 and the store is as before. *)
Ltac unchanged H :=
  left; injection H as <- <-; split; [reflexivity | intros; discriminate].

Section RestOfUsers.

Import UsersControllerRest.

Context {Store Float : Type}.
Context (repository : UsersRepository Store) (utils : PasswordUtils)
        (numbers : Numbers Float).

Implicit Types (store : Store) (id name email password : string).
Implicit Types (draws : list N) (reply : reply).

(** **** The account number generator *)

Lemma generateAccountNumber_loop_spec draws start store account_number :
  UsersServiceRest.generateAccountNumber_loop repository draws start store
  = Some (Resolved account_number)
  <-> exists k,
        (1 <= k <= length draws)%nat
        /\ account_number
           = foldl (fun acc draw => acc +:+ pretty draw) start (take k draws)
        /\ repo_getUAN repository account_number store = Resolved None
        /\ forall j,
             (1 <= j < k)%nat ->
             exists user,
               repo_getUAN repository
                 (foldl (fun acc draw => acc +:+ pretty draw) start (take j draws))
                 store
               = Resolved (Some user).
Proof.
  revert start. induction draws as [|draw draws IH]; intros start.
  - cbn. split; [discriminate |]. intros (k & Hk & _). cbn in Hk. lia.
  - cbn [UsersServiceRest.generateAccountNumber_loop].
    destruct (repo_getUAN repository (start +:+ pretty draw) store)
      as [[user|]|x] eqn:Hfirst.
    + rewrite IH. split.
      * intros (k & Hk & Hname & Hfree & Htaken).
        exists (S k). cbn [length take foldl]. repeat split; trivial; try lia.
        intros [|j] Hj; [lia |]. cbn [take foldl].
        destruct j as [|j]; [rewrite take_0; cbn [foldl]; eauto |]. apply Htaken. lia.
      * intros ([|k] & Hk & Hname & Hfree & Htaken); [lia |].
        cbn [length take foldl] in *.
        destruct k as [|k].
        { rewrite take_0 in Hname. cbn [foldl] in Hname. subst. congruence. }
        exists (S k). repeat split; trivial; try lia.
        intros j Hj. apply (Htaken (S j)). lia.
    + split.
      * intros [= <-]. exists 1%nat. cbn [length take foldl].
        rewrite take_0. cbn [foldl]. repeat split; trivial; lia.
      * intros ([|k] & Hk & Hname & Hfree & Htaken); [lia |].
        cbn [take foldl] in Hname.
        destruct k as [|k];
          [rewrite take_0 in Hname; cbn [foldl] in Hname; now subst |].
        destruct (Htaken 1%nat ltac:(lia)) as [user Huser].
        cbn [take foldl] in Huser. rewrite take_0 in Huser.
        cbn [foldl] in Huser. congruence.
    + split; [discriminate |].
      intros ([|k] & Hk & Hname & Hfree & Htaken); [lia |].
      cbn [take foldl] in Hname.
      destruct k as [|k];
        [rewrite take_0 in Hname; cbn [foldl] in Hname; subst; congruence |].
      destruct (Htaken 1%nat ltac:(lia)) as [user Huser].
      cbn [take foldl] in Huser. rewrite take_0 in Huser.
      cbn [foldl] in Huser. congruence.
Qed.

Lemma string_app_nil_r (s : string) : s +:+ EmptyString = s.
Proof.
  induction s as [|c s IH]; [reflexivity |].
  rewrite append_String. now rewrite IH.
Qed.

Lemma string_app_assoc (s t u : string) : (s +:+ t) +:+ u = s +:+ (t +:+ u).
Proof.
  induction s as [|c s IH]; [reflexivity |].
  rewrite !append_String. now rewrite IH.
Qed.

Lemma candidate_prefix draws k : String.prefix "535" (candidate draws k) = true.
Proof.
  unfold candidate. apply prefix_append.
  generalize (take k draws). intros l.
  assert (H : forall start,
             exists post,
               foldl (fun acc draw => acc +:+ pretty draw) start l
               = start +:+ post).
  { induction l as [|d l IH]; intros start; cbn [foldl].
    - exists EmptyString. now rewrite string_app_nil_r.
    - destruct (IH (start +:+ pretty d)) as [post ->].
      exists (pretty d +:+ post). apply string_app_assoc. }
  apply H.
Qed.

(** X16.  [generateAccountNumber] returns the first candidate that no user
    has, where the [k]-th candidate is [535] followed by the first [k]
    random numbers in decimal: after a collision the next number is
    appended to the candidate that collided, so the account number gets
    longer.  It returns exactly when such a candidate comes up before the
    random numbers are used up and the lookups before it resolve; every
    result starts with [535] and is free in the store. *)
Theorem X16_generated_account_number :
  forall draws store account_number,
    (UsersServiceRest.generateAccountNumber repository draws store
     = Some (Resolved account_number)
     <-> exists k,
           (1 <= k <= length draws)%nat
           /\ account_number = candidate draws k
           /\ repo_getUAN repository account_number store = Resolved None
           /\ forall j,
                (1 <= j < k)%nat ->
                exists user,
                  repo_getUAN repository (candidate draws j) store
                  = Resolved (Some user))
    /\ (UsersServiceRest.generateAccountNumber repository draws store
        = Some (Resolved account_number) ->
        String.prefix "535" account_number = true
        /\ repo_getUAN repository account_number store = Resolved None).
Proof.
  intros draws store account_number.
  assert (Hspec := generateAccountNumber_loop_spec draws "535" store account_number).
  split; [exact Hspec |].
  intros Hgen. apply Hspec in Hgen as (k & _ & -> & Hfree & _).
  split; [apply candidate_prefix | exact Hfree].
Qed.

(** **** The handlers *)

(** X17.  The detail view [getUser] never changes the store.  Its 200
    answer has exactly the keys [id], [name], [email], [phone] and
    [account_number], with the values of the user that the repository
    found: unlike the listing it leaves out the balance, and it never shows
    the password.  An unknown id is answered with UNPROCESSABLE_ENTITY
    "Unknown user". *)
Theorem X17_detail_view :
  forall id store reply store',
    getUser repository id store = (reply, store') ->
    store' = store
    /\ (forall body,
           reply = Json body ->
           map fst body = ["id"; "name"; "email"; "phone"; "account_number"]
           /\ exists user,
                repo_getUser repository id store = Resolved (Some user)
                /\ map snd body
                   = [ UsersService.id user; UsersService.name user;
                       UsersService.email user; UsersService.phone user;
                       UsersService.account_number user ])
    /\ (repo_getUser repository id store = Resolved None ->
        reply = Next (ErrorResponder UNPROCESSABLE_ENTITY "Unknown user")).
Proof.
  intros id store reply store' H. unfold getUser in H. async_unfold.
  destruct (repo_getUser repository id store) as [[user|]|x] eqn:Hrepo;
    cbn in H; simplify_eq; (split; [reflexivity |]); split; try done.
  intros obj [= <-]. split; [reflexivity |]. now exists user.
Qed.






End RestOfUsers.

(** **** The handlers on the repository in memory *)

Lemma X16_generated_account_number_witness :
  UsersServiceRest.generateAccountNumber listRepository [1234567%N; 42%N]
    johnsStore
  = Some (Resolved "535123456742")
  /\ String.prefix "535" "535123456742" = true
  /\ repo_getUAN listRepository "535123456742" johnsStore = Resolved None.
Proof.
  assert (H : UsersServiceRest.generateAccountNumber listRepository
                [1234567%N; 42%N] johnsStore
              = Some (Resolved "535123456742")) by (vm_compute; reflexivity).
  split; [exact H |].
  exact (proj2 (X16_generated_account_number listRepository _ _ _) H).
Defined.

Lemma X17_detail_view_witness :
  UsersControllerRest.getUser listRepository "id-John" johnsStore
  = (UsersControllerRest.Json
       [ ("id", "id-John"); ("name", "John"); ("email", "john@example.com");
         ("phone", "0800"); ("account_number", "5351234567") ],
     johnsStore)
  /\ johnsStore = johnsStore.
Proof.
  assert (H : UsersControllerRest.getUser listRepository "id-John" johnsStore
              = (UsersControllerRest.Json
                   [ ("id", "id-John"); ("name", "John");
                     ("email", "john@example.com"); ("phone", "0800");
                     ("account_number", "5351234567") ],
                 johnsStore)) by (vm_compute; reflexivity).
  split; [exact H |].
  exact (proj1 (X17_detail_view listRepository _ _ _ _ H)).
Defined.






(** **** Rejected promises *)

Section RejectedPromises.

Import UsersControllerRest.

Context {Store : Type}.
Context (repository : UsersRepository Store) (utils : PasswordUtils).

(** X23.  What a handler does with a rejected promise depends on where it
    is awaited.  A rejected lookup is given to [next] as it is.  A rejected
    update or deletion is caught in the service, which returns [null], and
    the handler answers UNPROCESSABLE_ENTITY; a rejected password change is
    not caught in the service and is given to [next] as it is.  The store
    is as before each time. *)
Theorem X23_rejected_promises :
  forall id name email password deleteConfirm store x,
    (repo_getUserByEmail repository email store = Thrown x ->
     updateUser repository id name email store = (Next x, store)
     /\ deleteUser repository utils id email password deleteConfirm store
        = (Next x, store))
    /\ (forall user,
           repo_getUserByEmail repository email store = Resolved None ->
           repo_getUser repository id store = Resolved (Some user) ->
           repo_updateUser repository id name email store = Thrown x ->
           updateUser repository id name email store
           = (Next (ErrorResponder UNPROCESSABLE_ENTITY "Failed to update user"),
              store))
    /\ (forall owner user,
           repo_getUserByEmail repository email store = Resolved (Some owner) ->
           repo_getUser repository id store = Resolved (Some user) ->
           passwordMatched utils password (UsersService.password user)
           = Resolved true ->
           repo_deleteUser repository id store = Thrown x ->
           deleteUser repository utils id email password "Yes" store
           = (Next (ErrorResponder UNPROCESSABLE_ENTITY "Failed to delete user"),
              store))
    /\ (forall user password_new hashed,
           repo_getUser repository id store = Resolved (Some user) ->
           passwordMatched utils password (UsersService.password user)
           = Resolved true ->
           hashPassword utils password_new = Resolved hashed ->
           repo_changePassword repository id hashed store = Thrown x ->
           changePassword repository utils id password password_new
             password_new store
           = (Next x, store)).
Proof.
  intros id name email password deleteConfirm store x.
  unfold updateUser, deleteUser, changePassword. async_unfold.
  split; [|split; [|split]].
  - intros ->. now split.
  - intros user -> Huser Hupdate. cbn. rewrite Huser. cbn. now rewrite Hupdate.
  - intros owner user -> Huser Hmatch Hdelete. cbn. rewrite Huser. cbn.
    rewrite Hmatch. cbn. rewrite Huser. cbn. now rewrite Hdelete.
  - intros user password_new hashed Huser Hmatch Hhash Hchange.
    rewrite String.eqb_refl. cbn. rewrite Huser. cbn. rewrite Hmatch. cbn.
    rewrite Huser. cbn. rewrite Hhash. cbn. now rewrite Hchange.
Qed.

End RejectedPromises.

Lemma X23_rejected_promises_witness :
  repo_getUserByEmail readOnlyRepository "new@example.com" johnsStore
  = Resolved None
  /\ repo_updateUser readOnlyRepository "id-John" "Johnny" "new@example.com"
       johnsStore
     = Thrown PromiseRejected
  /\ UsersControllerRest.updateUser readOnlyRepository "id-John" "Johnny"
       "new@example.com" johnsStore
     = (UsersControllerRest.Next
          (ErrorResponder UNPROCESSABLE_ENTITY "Failed to update user"),
        johnsStore).
Proof.
  split; [reflexivity |]. split; [reflexivity |].
  refine (proj1 (proj2 (X23_rejected_promises readOnlyRepository sampleUtils
                          "id-John" "Johnny" "new@example.com" "secret" "Yes"
                          johnsStore PromiseRejected))
            _ eq_refl eq_refl eq_refl).
Defined.
